(** * fetlife-data-tools: front-matter store, identifier matcher, folder
      router, page synthesis, reconciliation and record merge.

    A shallow embedding of [obsidian/Vault.go], of the sync command
    ([SyncCmd]) and of [program/generate.go], followed by the theorems that
    settle the stated properties of the program.

    Conventions.
    - A Go [string] is a [string] (a sequence of bytes); Go [int] is [Z].
    - A Go map is a [gmap]; a slice is a [list]; a [*Page] held in
      [vault.Pages] is the position of the page in that list.
    - A function that returns [(T, error)] returns [result T]; a method that
      mutates the vault or the file system threads a [World].
    - What libraries outside the repository compute is a parameter of the
      model: the YAML codec ([YamlCodec]), the case and white-space
      functions of the [strings] package that depend on the Unicode tables
      ([Unicode]) and the CSV reader and writer ([Tables]). The theorems
      hold for every instance; instances are fixed in examples only.
    - Logging is not modelled: it never influences control flow. *)

From Stdlib Require Import ZArith Ascii String Lia.
From stdpp Require Import base option strings list gmap sorting.

Local Open Scope string_scope.
Local Open Scope list_scope.
Local Open Scope stdpp_scope.
Local Open Scope Z_scope.

#[local] Arguments String.append !_ _ : simpl nomatch.

(** ** The Go [strings] package, as far as the program uses it *)

Module Strings.

(** [len(s)] *)
Definition len (s : string) : Z := Z.of_nat (String.length s).

(** [s[n:]] and [s[:n]] on byte positions. *)
Fixpoint sdrop (n : nat) (s : string) : string :=
  match n, s with
  | O, _ => s
  | S n', String _ s' => sdrop n' s'
  | S _, EmptyString => EmptyString
  end.

Fixpoint stake (n : nat) (s : string) : string :=
  match n, s with
  | O, _ => EmptyString
  | S n', String c s' => String c (stake n' s')
  | S _, EmptyString => EmptyString
  end.

(** [s[lo:]] and [s[lo:hi]]. Go panics when the bounds are out of range;
    every call site below stays in range. *)
Definition sliceFrom (s : string) (lo : Z) : string := sdrop (Z.to_nat lo) s.
Definition slice (s : string) (lo hi : Z) : string :=
  stake (Z.to_nat (hi - lo)) (sdrop (Z.to_nat lo) s).

Fixpoint HasPrefix (s prefix : string) : bool :=
  match prefix, s with
  | EmptyString, _ => true
  | String _ _, EmptyString => false
  | String p prefix', String c s' =>
      if Ascii.eqb c p then HasPrefix s' prefix' else false
  end.

(** [len(s) >= len(suffix) && s[len(s)-len(suffix):] == suffix] *)
Definition HasSuffix (s suffix : string) : bool :=
  (len suffix <=? len s) && String.eqb (sliceFrom s (len s - len suffix)) suffix.

Fixpoint Contains (s substr : string) : bool :=
  HasPrefix s substr ||
  match s with
  | EmptyString => false
  | String _ s' => Contains s' substr
  end.

(** Position of the first occurrence, [-1] when there is none. *)
Fixpoint Index (s substr : string) : Z :=
  if HasPrefix s substr then 0
  else match s with
       | EmptyString => -1
       | String _ s' => let i := Index s' substr in
                        if i =? -1 then -1 else i + 1
       end.

Definition TrimSuffix (s suffix : string) : string :=
  if HasSuffix s suffix then slice s 0 (len s - len suffix) else s.

(** [ToLower] and [TrimSpace] work on the code points of a string, with
    the case and white-space tables of the Go library, which are not part
    of the repository: the model takes the two functions as they are and
    assumes nothing about them. *)
Class Unicode : Type := {
  ToLower : string → string;
  TrimSpace : string → string
}.

(** [Split(s, sep)] for a one-byte separator, which is all the program
    passes. [Split("", sep)] is the one-element slice holding [""]. *)
Fixpoint Split (s : string) (sep : ascii) : list string :=
  match s with
  | EmptyString => [EmptyString]
  | String c s' =>
      if Ascii.eqb c sep then EmptyString :: Split s' sep
      else match Split s' sep with
           | w :: ws => String c w :: ws
           | [] => [String c EmptyString]
           end
  end.

(** [SplitN(s, sep, 2)] for a one-byte separator: cut at the first
    separator only. *)
Fixpoint SplitN2 (s : string) (sep : ascii) : list string :=
  match s with
  | EmptyString => [EmptyString]
  | String c s' =>
      if Ascii.eqb c sep then [EmptyString; s']
      else match SplitN2 s' sep with
           | w :: ws => String c w :: ws
           | [] => [String c EmptyString]
           end
  end.

(** [ReplaceAll(s, old, new)] for a non-empty [old]: occurrences are
    replaced from the left and do not overlap. [skip] counts the bytes of
    an occurrence already replaced that are still to be passed over. *)
Fixpoint replaceFrom (skip : nat) (s old new : string) : string :=
  match s with
  | EmptyString => EmptyString
  | String c s' =>
      match skip with
      | S k => replaceFrom k s' old new
      | O => if HasPrefix s old
             then new +:+ replaceFrom (String.length old - 1) s' old new
             else String c (replaceFrom O s' old new)
      end
  end.

Definition ReplaceAll (s old new : string) : string := replaceFrom O s old new.

End Strings.
Import Strings.

(** A line feed, and the front-matter delimiter line ["---\n"]. *)
Definition LF : string := String "010"%char EmptyString.
Definition delim : string := "---" +:+ LF.

(** ** Errors and results *)

(** The Go [error] values the modelled calls can return. *)
Inductive error : Type :=
| ENOENT    (* no such file or directory *)
| EISDIR    (* is a directory *)
| ENOTDIR   (* a path component is not a directory *)
| EYAML.    (* yaml.Unmarshal rejected the front matter *)

Inductive result (A : Type) : Type :=
| Ok (a : A)
| Err (e : error).
Arguments Ok {A} a.
Arguments Err {A} e.

(** ** Paths and the file system ([path/filepath], [os]) *)

(** A cleaned absolute path is the list of its components below the file
    system root. *)
Abbreviation path := (list string).

(** One component appended to a path being cleaned: empty and ["."]
    components vanish, [".."] removes the last component. *)
Definition joinStep (p : path) (c : string) : path :=
  if String.eqb c "" || String.eqb c "." then p
  else if String.eqb c ".." then removelast p
  else p ++ [c].

(** [filepath.Join(p, elem)]: the result is cleaned. *)
Definition Join (p : path) (elem : string) : path :=
  foldl joinStep p (Split elem "/").

(** [filepath.Base] *)
Definition Base (p : path) : string := List.last p "/".

(** [filepath.Rel(base, target)], as the components of the relative path
    (the empty list stands for ["."]). On two absolute paths it never
    fails. *)
Fixpoint Rel (base target : path) : list string :=
  match base, target with
  | b :: base', t :: target' =>
      if String.eqb b t then Rel base' target'
      else replicate (length base) ".." ++ target
  | _, _ => replicate (length base) ".." ++ target
  end.

Fixpoint joinSlash (cs : list string) : string :=
  match cs with
  | [] => ""
  | [c] => c
  | c :: cs' => c +:+ "/" +:+ joinSlash cs'
  end.

(** [filepath.Dir] of a relative path. *)
Definition Dir (rel : list string) : string :=
  match removelast rel with
  | [] => "."
  | d => joinSlash d
  end.

(** Regular files with their content, and the directories that exist. The
    root directory always exists. *)
Record FS : Type := mkFS {
  files : gmap path string;
  dirs : gset path
}.

Definition isDir (fs : FS) (p : path) : bool :=
  bool_decide (p = [] ∨ p ∈ dirs fs).

(** [os.ReadFile] *)
Definition ReadFile (fs : FS) (p : path) : result string :=
  if isDir fs p then Err EISDIR
  else match files fs !! p with
       | Some content => Ok content
       | None => Err ENOENT
       end.

(** [os.WriteFile]: creates or truncates the file; the parent directory
    must exist. *)
Definition WriteFile (fs : FS) (p : path) (data : string) : result FS :=
  if isDir fs p then Err EISDIR
  else if isDir fs (removelast p)
       then Ok (mkFS (<[p := data]> (files fs)) (dirs fs))
       else Err ENOENT.

(** The path itself and its ancestors below the root. *)
Definition ancestors (p : path) : list path :=
  (λ n, take n p) <$> seq 1 (length p).

(** [os.MkdirAll]: creates the directory and every missing parent; fails
    when a component exists as a regular file. *)
Definition MkdirAll (fs : FS) (p : path) : result FS :=
  if bool_decide (Exists (λ q, is_Some (files fs !! q)) (ancestors p))
  then Err ENOTDIR
  else Ok (mkFS (files fs) (dirs fs ∪ list_to_set (ancestors p))).

(** ** YAML ([gopkg.in/yaml.v3]) *)

(** What [Save] stores in its [map[string]interface{}]: a [string] or a
    [[]string]. *)
Inductive field : Type :=
| FString (s : string)
| FStrings (l : list string).

(** What [yaml.Unmarshal] stores in a [map[string]interface{}]: a [string],
    a [[]interface{}], or a value of another dynamic type (number, bool,
    nil, nested map). *)
#[warnings="-register-all"]
Inductive node : Type :=
| NString (s : string)
| NSeq (l : list node)
| NOther.

(** The encoder and decoder of the YAML library are outside the repository.
    Two things are kept abstract: how the encoder presents one string
    scalar (plain, quoted or literal; the text after ["key:"] or ["-"] up to
    and including the line end, at a given indentation), and the decoder
    ([None] is a decoding error). *)
Class YamlCodec : Type := {
  emitScalar : nat → string → string;
  yamlUnmarshal : string → option (gmap string node)
}.

(** The encoder sorts the keys of a Go map before it writes them. On keys
    made of lower-case letters and ['-'], as all keys of this program are,
    its order is the byte-wise order of the keys. *)
Definition keyLe (a b : string * field) : Prop := String.leb a.1 b.1 = true.

#[global] Instance keyLe_dec a b : Decision (keyLe a b).
Proof. unfold keyLe. apply _. Defined.

Definition sortedEntries (m : gmap string field) : list (string * field) :=
  merge_sort keyLe (map_to_list m).

Section yaml_marshal.
Context `{YamlCodec}.

(** One [key: value] entry of a block mapping; a sequence goes on the
    following lines, one ["    - item"] per element. *)
Definition emitEntry (kv : string * field) : string :=
  match kv.2 with
  | FString s => kv.1 +:+ ":" +:+ emitScalar 0 s
  | FStrings [] => kv.1 +:+ ": []" +:+ LF
  | FStrings l =>
      kv.1 +:+ ":" +:+ LF +:+ String.concat "" ((λ x, "    -" +:+ emitScalar 4 x) <$> l)
  end.

(** [yaml.Marshal] of the metadata map. *)
Definition yamlMarshal (m : gmap string field) : string :=
  String.concat "" (emitEntry <$> sortedEntries m).

End yaml_marshal.

(** The keys in the order in which [yaml.Marshal] writes them. *)
Definition emittedKeys (m : gmap string field) : list string :=
  (sortedEntries m).*1.

(** ** obsidian/Vault.go *)

Record Page : Type := mkPage {
  Title : string;
  Folder : string;
  Tags : list string;
  Aliases : list string;
  Url : string;
  UrlAliases : list string;
  WebBadgeColor : string;
  WebMessage : string;
  FilePath : path;
  Content : string
}.

(** [&Page{FilePath: filePath}]: every other field has its zero value. *)
Definition newPage (filePath : path) : Page :=
  mkPage "" "" [] [] "" [] "" "" filePath "".

Definition setTitle (v : string) (p : Page) : Page :=
  mkPage v (Folder p) (Tags p) (Aliases p) (Url p) (UrlAliases p)
         (WebBadgeColor p) (WebMessage p) (FilePath p) (Content p).
Definition setFolder (v : string) (p : Page) : Page :=
  mkPage (Title p) v (Tags p) (Aliases p) (Url p) (UrlAliases p)
         (WebBadgeColor p) (WebMessage p) (FilePath p) (Content p).
Definition setTags (v : list string) (p : Page) : Page :=
  mkPage (Title p) (Folder p) v (Aliases p) (Url p) (UrlAliases p)
         (WebBadgeColor p) (WebMessage p) (FilePath p) (Content p).
Definition setAliases (v : list string) (p : Page) : Page :=
  mkPage (Title p) (Folder p) (Tags p) v (Url p) (UrlAliases p)
         (WebBadgeColor p) (WebMessage p) (FilePath p) (Content p).
Definition setUrl (v : string) (p : Page) : Page :=
  mkPage (Title p) (Folder p) (Tags p) (Aliases p) v (UrlAliases p)
         (WebBadgeColor p) (WebMessage p) (FilePath p) (Content p).
Definition setUrlAliases (v : list string) (p : Page) : Page :=
  mkPage (Title p) (Folder p) (Tags p) (Aliases p) (Url p) v
         (WebBadgeColor p) (WebMessage p) (FilePath p) (Content p).
Definition setWebBadgeColor (v : string) (p : Page) : Page :=
  mkPage (Title p) (Folder p) (Tags p) (Aliases p) (Url p) (UrlAliases p)
         v (WebMessage p) (FilePath p) (Content p).
Definition setWebMessage (v : string) (p : Page) : Page :=
  mkPage (Title p) (Folder p) (Tags p) (Aliases p) (Url p) (UrlAliases p)
         (WebBadgeColor p) v (FilePath p) (Content p).
Definition setContent (v : string) (p : Page) : Page :=
  mkPage (Title p) (Folder p) (Tags p) (Aliases p) (Url p) (UrlAliases p)
         (WebBadgeColor p) (WebMessage p) (FilePath p) v.

(** [metadata[key].([]interface{})] followed by the loop that appends the
    elements that are strings: a value of another type leaves the field
    empty, an element of another type is skipped. *)
Definition stringsOf (v : option node) : list string :=
  match v with
  | Some (NSeq l) =>
      omap (λ x, match x with NString s => Some s | _ => None end) l
  | _ => []
  end.

(** [metadata[key].(string)]: [None] when the assertion fails. *)
Definition stringOf (v : option node) : option string :=
  match v with
  | Some (NString s) => Some s
  | _ => None
  end.

(** The six assignments of [loadPage] from the decoded metadata. *)
Definition extractMetadata (metadata : gmap string node) (page : Page) : Page :=
  let page := setTags (Tags page ++ stringsOf (metadata !! "tags")) page in
  let page := setAliases (Aliases page ++ stringsOf (metadata !! "aliases")) page in
  let page := match stringOf (metadata !! "url") with
              | Some url => setUrl url page
              | None => page
              end in
  let page := setUrlAliases (UrlAliases page ++ stringsOf (metadata !! "url-aliases")) page in
  let page := match stringOf (metadata !! "web-badge-color") with
              | Some c => setWebBadgeColor c page
              | None => page
              end in
  match stringOf (metadata !! "web-message") with
  | Some m => setWebMessage m page
  | None => page
  end.

Section vault.
Context `{YamlCodec}.

(** The front-matter part of [loadPage]: from the file content to the page
    without title and folder. *)
Definition parseContent (contentStr : string) (page : Page) : result Page :=
  if HasPrefix contentStr delim then
    let endIdx := Index (sliceFrom contentStr 4) delim in
    if negb (endIdx =? -1) then
      let frontmatter := slice contentStr 4 (endIdx + 4) in
      let page := setContent (sliceFrom contentStr (endIdx + 8)) page in
      match yamlUnmarshal frontmatter with
      | None => Err EYAML
      | Some metadata => Ok (extractMetadata metadata page)
      end
    else Ok page
  else Ok (setContent contentStr page).

Definition loadPage (fs : FS) (filePath vaultPath : path) : result Page :=
  match ReadFile fs filePath with
  | Err e => Err e
  | Ok contentStr =>
      match parseContent contentStr (newPage filePath) with
      | Err e => Err e
      | Ok page =>
          let filename := Base filePath in
          let page := setTitle (TrimSuffix filename ".md") page in
          let relPath := Rel vaultPath filePath in
          Ok (setFolder (Dir relPath) page)
      end
  end.

(** [LoadPage], the exported name. *)
Definition LoadPage := loadPage.

(** The metadata map [Save] builds. *)
Definition buildMetadata (page : Page) : gmap string field :=
  let metadata : gmap string field := ∅ in
  let metadata := if 0 <? Z.of_nat (length (Tags page))
                  then <["tags" := FStrings (Tags page)]> metadata else metadata in
  let metadata := if 0 <? Z.of_nat (length (Aliases page))
                  then <["aliases" := FStrings (Aliases page)]> metadata else metadata in
  let metadata := if negb (String.eqb (Url page) "")
                  then <["url" := FString (Url page)]> metadata else metadata in
  let metadata := if 0 <? Z.of_nat (length (UrlAliases page))
                  then <["url-aliases" := FStrings (UrlAliases page)]> metadata else metadata in
  let metadata := if negb (String.eqb (WebBadgeColor page) "")
                  then <["web-badge-color" := FString (WebBadgeColor page)]> metadata
                  else metadata in
  if negb (String.eqb (WebMessage page) "")
  then <["web-message" := FString (WebMessage page)]> metadata else metadata.

(** The bytes [Save] hands to [os.WriteFile]. [yaml.Marshal] does not fail
    on a map of strings and string slices, so [Save] fails only when the
    file cannot be written. *)
Definition serialize (page : Page) : string :=
  let metadata := buildMetadata page in
  let fileContent :=
    if 0 <? Z.of_nat (size metadata)
    then delim +:+ yamlMarshal metadata +:+ delim
    else "" in
  fileContent +:+ Content page.

Definition Save (page : Page) (fs : FS) : result FS :=
  WriteFile fs (FilePath page) (serialize page).

End vault.

(** The vault: its root and its pages. [Pages] is a [[]*Page]; a pointer
    to a page is the position of the page in the list, so that an update
    made through the pointer is seen by every later reader of the vault. *)
Record Vault : Type := mkVault {
  Path : path;
  Pages : list Page
}.

#[global] Instance Page_inhabited : Inhabited Page := populate (newPage []).

(** ** The sync command *)

Record SyncCmd : Type := mkSyncCmd {
  CreatePeopleIn : list string;
  CreateBlockedIn : string
}.

(** Modelled from the spec: the declaration of [Options] is not among the
    sources. The sync command reads one field of it, [options.Vault], the
    root of the collection (the tests build [&Options{Vault: tempVault}]). *)
Record Options : Type := mkOptions {
  OptionsVault : path
}.

(** The records of the two exports ([fetlife.BlockedRecord] and
    [fetlife.PrivateNoteRecord]; the sync command declares the same two). *)
Module BlockedRecord.
Record t : Type := mk {
  UserID : string;
  CreatedAt : string;
  UpdatedAt : string;
  Nickname : string
}.
End BlockedRecord.

Module PrivateNoteRecord.
Record t : Type := mk {
  MemberID : string;
  CreatedAt : string;
  UpdatedAt : string;
  PrivateNote : string
}.
End PrivateNoteRecord.

(** What a run of the command can change: the vault in memory and the
    files on disk. *)
Record World : Type := mkWorld {
  vault : Vault;
  disk : FS
}.

(** [*ptr = page] for a pointer into [vault.Pages]. *)
Definition storePage (ptr : nat) (page : Page) (w : World) : World :=
  mkWorld (mkVault (Path (vault w)) (<[ptr := page]> (Pages (vault w)))) (disk w).

Definition setDisk (fs : FS) (w : World) : World := mkWorld (vault w) fs.

(** The test [findPageByUserID] applies to the main URL and to each alias. *)
Definition urlMatches (url userID : string) : bool :=
  Contains url ("/users/" +:+ userID) || HasSuffix url ("/" +:+ userID).

(** The inner loop over [page.UrlAliases], left by [break] at the first
    alias that matches. *)
Fixpoint aliasMatches (urlAliases : list string) (userID : string) : bool :=
  match urlAliases with
  | [] => false
  | urlAlias :: rest =>
      if urlMatches urlAlias userID then true else aliasMatches rest userID
  end.

(** The loop over [vault.Pages], from position [i] on. *)
Fixpoint findFrom (i : nat) (pages : list Page) (userID : string) : list nat :=
  match pages with
  | [] => []
  | page :: rest =>
      if urlMatches (Url page) userID then i :: findFrom (S i) rest userID
      else if aliasMatches (UrlAliases page) userID then i :: findFrom (S i) rest userID
      else findFrom (S i) rest userID
  end.

Definition findPageByUserID (v : Vault) (userID : string) : result (list nat) :=
  Ok (findFrom 0 (Pages v) userID).

Section router.
Context `{Unicode}.

(** The loop of [parseFolderConfig] over the comma-separated pieces. *)
Fixpoint collectKeywords (keywordParts : list string) : list string :=
  match keywordParts with
  | [] => []
  | kw :: rest =>
      let trimmed := TrimSpace kw in
      if negb (String.eqb trimmed "")
      then ToLower trimmed :: collectKeywords rest
      else collectKeywords rest
  end.

Definition parseFolderConfig (config : string) : string * list string :=
  let parts := SplitN2 config ":" in
  let folder := hd "" parts in
  let keywords :=
    match parts with
    | [_; kws] => if negb (String.eqb kws "") then collectKeywords (Split kws ",") else []
    | _ => []
    end in
  (folder, keywords).

(** The loop over the keywords of one rule: [true] at the first keyword
    that occurs in the lower-cased note. *)
Fixpoint keywordMatches (lowerNote : string) (keywords : list string) : bool :=
  match keywords with
  | [] => false
  | keyword :: rest =>
      if Contains lowerNote keyword then true else keywordMatches lowerNote rest
  end.

(** The loop over [sync.CreatePeopleIn]: the folder returned from inside
    the loop, if any. *)
Fixpoint scanConfigs (lowerNote : string) (configs : list string) : option string :=
  match configs with
  | [] => None
  | config :: rest =>
      let '(folder, keywords) := parseFolderConfig config in
      if (0 <? Z.of_nat (length keywords)) && keywordMatches lowerNote keywords
      then Some folder
      else scanConfigs lowerNote rest
  end.

Definition determineFolderForUser (sync : SyncCmd) (userID privateNote : string) : string :=
  if Z.of_nat (length (CreatePeopleIn sync)) =? 0 then "People"
  else
    let matched :=
      if negb (String.eqb privateNote "")
      then scanConfigs (ToLower privateNote) (CreatePeopleIn sync)
      else None in
    match matched with
    | Some folder => folder
    | None => (parseFolderConfig (hd "" (CreatePeopleIn sync))).1
    end.

End router.

(** Lines, each ended by a line feed. *)
Definition unlines (ls : list string) : string :=
  String.concat "" ((λ l, l +:+ LF) <$> ls).

Definition urlPrefix : string := "url: https://fetlife.com/users/".

(** The template [createPageInFolder] falls back to. *)
Definition defaultTemplate (userID : string) : string :=
  unlines [ "---";
            "tags:";
            "  - person";
            "url: https://fetlife.com/users/" +:+ userID;
            "---";
            "";
            "# Notes" ].

Section sync.
Context `{YamlCodec} `{Unicode}.

Definition createPageInFolder (sync : SyncCmd) (w : World)
    (userID nickname folder : string) (options : Options) : result nat * World :=
  let pageName := if String.eqb nickname "" then "user-" +:+ userID else nickname in
  let folderPath := Join (OptionsVault options) folder in
  match MkdirAll (disk w) folderPath with
  | Err e => (Err e, w)
  | Ok fs1 =>
      let w := setDisk fs1 w in
      let filePath := Join folderPath (pageName +:+ ".md") in
      let templatePath := Join (Join (OptionsVault options) "Templates") "People.md" in
      let templateContent :=
        match ReadFile (disk w) templatePath with
        | Ok c => c
        | Err _ => defaultTemplate userID
        end in
      let content := ReplaceAll templateContent "{{title}}" pageName in
      let content := ReplaceAll content urlPrefix (urlPrefix +:+ userID) in
      match WriteFile (disk w) filePath content with
      | Err e => (Err e, w)
      | Ok fs2 =>
          let w := setDisk fs2 w in
          match LoadPage (disk w) filePath (OptionsVault options) with
          | Err e => (Err e, w)
          | Ok page =>
              let ptr := length (Pages (vault w)) in
              (Ok ptr, mkWorld (mkVault (Path (vault w)) (Pages (vault w) ++ [page])) (disk w))
          end
      end
  end.

Definition createPageFromTemplateWithNote (sync : SyncCmd) (w : World)
    (userID nickname privateNote : string) (options : Options) : result nat * World :=
  let folder := determineFolderForUser sync userID privateNote in
  createPageInFolder sync w userID nickname folder options.

Definition createPageFromTemplate (sync : SyncCmd) (w : World)
    (userID nickname : string) (options : Options) : result nat * World :=
  createPageFromTemplateWithNote sync w userID nickname "" options.

(** The loop of [processBlocked] that looks for the tag, left by [break]. *)
Fixpoint hasBlockedTag (tags : list string) : bool :=
  match tags with
  | [] => false
  | tag :: rest => if String.eqb tag "blocked" then true else hasBlockedTag rest
  end.

(** The update [processBlocked] applies to the page it found or created,
    before it saves it. *)
Definition blockedUpdate (blocked : BlockedRecord.t) (page : Page) : Page :=
  let page := if negb (hasBlockedTag (Tags page))
              then setTags (Tags page ++ ["blocked"]) page else page in
  if String.eqb (WebMessage page) ""
  then setWebMessage ("Blocked on " +:+ BlockedRecord.CreatedAt blocked) page
  else page.

(** The tail shared by both record processors: the page behind [ptr] is
    replaced by its update and saved. *)
Definition updateAndSave (update : Page → Page) (ptr : nat) (w : World) : option error * World :=
  let page := update (Pages (vault w) !!! ptr) in
  let w := storePage ptr page w in
  match Save page (disk w) with
  | Err e => (Some e, w)
  | Ok fs' => (None, setDisk fs' w)
  end.

Definition processBlocked (sync : SyncCmd) (w : World) (blocked : BlockedRecord.t)
    (options : Options) : option error * World :=
  match findPageByUserID (vault w) (BlockedRecord.UserID blocked) with
  | Err e => (Some e, w)
  | Ok pages =>
      if 1 <? Z.of_nat (length pages) then (None, w)
      else
        let found :=
          if Z.of_nat (length pages) =? 0
          then createPageInFolder sync w (BlockedRecord.UserID blocked) (BlockedRecord.Nickname blocked)
                                  (CreateBlockedIn sync) options
          else (Ok (pages !!! 0%nat), w) in
        match found with
        | (Err e, w) => (Some e, w)
        | (Ok ptr, w) => updateAndSave (blockedUpdate blocked) ptr w
        end
  end.

Definition processPrivateNote (sync : SyncCmd) (w : World) (note : PrivateNoteRecord.t)
    (options : Options) : option error * World :=
  match findPageByUserID (vault w) (PrivateNoteRecord.MemberID note) with
  | Err e => (Some e, w)
  | Ok pages =>
      if 1 <? Z.of_nat (length pages) then (None, w)
      else
        let found :=
          if Z.of_nat (length pages) =? 0
          then createPageFromTemplateWithNote sync w (PrivateNoteRecord.MemberID note) ""
                                              (PrivateNoteRecord.PrivateNote note) options
          else (Ok (pages !!! 0%nat), w) in
        match found with
        | (Err e, w) => (Some e, w)
        | (Ok ptr, w) => updateAndSave (setWebMessage (PrivateNoteRecord.PrivateNote note)) ptr w
        end
  end.

(** The two loops of [Run]: an error of one record is logged and the loop
    goes on with the next record. *)
Definition processBlockeds (sync : SyncCmd) (options : Options)
    (w : World) (blockeds : list BlockedRecord.t) : World :=
  foldl (λ w blocked, (processBlocked sync w blocked options).2) w blockeds.

Definition processPrivateNotes (sync : SyncCmd) (options : Options)
    (w : World) (privateNotes : list PrivateNoteRecord.t) : World :=
  foldl (λ w note, (processPrivateNote sync w note options).2) w privateNotes.

End sync.

(** ** program/generate.go *)

Module MergedUser.
Record t : Type := mk {
  UserID : string;
  Nickname : string;
  URL : string;
  Blocked : bool;
  BlockedAt : string;
  PrivateNote : string;
  NoteCreated : string;
  NoteUpdated : string
}.
End MergedUser.

(** [fmt.Sprintf("https://fetlife.com/users/%s", id)] *)
Definition userURL (id : string) : string := "https://fetlife.com/users/" +:+ id.

(** The body of the first loop of [mergeUserData]. *)
Definition addBlocked (userMap : gmap string MergedUser.t) (blocked : BlockedRecord.t)
    : gmap string MergedUser.t :=
  <[BlockedRecord.UserID blocked :=
      MergedUser.mk (BlockedRecord.UserID blocked) (BlockedRecord.Nickname blocked)
                    (userURL (BlockedRecord.UserID blocked)) true
                    (BlockedRecord.CreatedAt blocked) "" "" ""]> userMap.

(** The three assignments through the pointer [existing]. *)
Definition fillNote (note : PrivateNoteRecord.t) (existing : MergedUser.t) : MergedUser.t :=
  MergedUser.mk (MergedUser.UserID existing) (MergedUser.Nickname existing)
                (MergedUser.URL existing) (MergedUser.Blocked existing)
                (MergedUser.BlockedAt existing)
                (PrivateNoteRecord.PrivateNote note)
                (PrivateNoteRecord.CreatedAt note)
                (PrivateNoteRecord.UpdatedAt note).

(** The body of the second loop. *)
Definition addNote (userMap : gmap string MergedUser.t) (note : PrivateNoteRecord.t)
    : gmap string MergedUser.t :=
  match userMap !! PrivateNoteRecord.MemberID note with
  | Some existing =>
      <[PrivateNoteRecord.MemberID note := fillNote note existing]> userMap
  | None =>
      <[PrivateNoteRecord.MemberID note :=
          MergedUser.mk (PrivateNoteRecord.MemberID note) ""
                        (userURL (PrivateNoteRecord.MemberID note)) false ""
                        (PrivateNoteRecord.PrivateNote note)
                        (PrivateNoteRecord.CreatedAt note)
                        (PrivateNoteRecord.UpdatedAt note)]> userMap
  end.

(** The map [mergeUserData] has built when its two loops are over. *)
Definition mergedMap (blockeds : list BlockedRecord.t)
    (privateNotes : list PrivateNoteRecord.t) : gmap string MergedUser.t :=
  foldl addNote (foldl addBlocked ∅ blockeds) privateNotes.

(** The slice it returns: the values of the map, in the order in which the
    map happens to be iterated. No statement below depends on that order. *)
Definition mergeUserData (blockeds : list BlockedRecord.t)
    (privateNotes : list PrivateNoteRecord.t) : list MergedUser.t :=
  (map_to_list (mergedMap blockeds privateNotes)).*2.

(** ** Case and white space of ASCII text *)

(** What [strings.ToLower] and [strings.TrimSpace] do to a string of ASCII
    bytes: the letters [A] to [Z] have a lower case, and white space is
    tab, line feed, vertical tab, form feed, carriage return and space.
    The sample inputs below are ASCII text. *)
Definition lowerByte (c : ascii) : ascii :=
  let n := N_of_ascii c in
  if ((65 <=? n) && (n <=? 90))%N then ascii_of_N (n + 32) else c.

Fixpoint lowerASCII (s : string) : string :=
  match s with
  | EmptyString => EmptyString
  | String c s' => String (lowerByte c) (lowerASCII s')
  end.

Definition isSpace (c : ascii) : bool :=
  let n := N_of_ascii c in
  ((9 <=? n) && (n <=? 13) || (n =? 32))%N.

Fixpoint TrimLeftSpace (s : string) : string :=
  match s with
  | EmptyString => EmptyString
  | String c s' => if isSpace c then TrimLeftSpace s' else s
  end.

Fixpoint TrimRightSpace (s : string) : string :=
  match s with
  | EmptyString => EmptyString
  | String c s' =>
      match TrimRightSpace s' with
      | EmptyString => if isSpace c then EmptyString else String c EmptyString
      | t => String c t
      end
  end.

Definition trimASCII (s : string) : string := TrimRightSpace (TrimLeftSpace s).

Definition asciiText : Unicode :=
  {| ToLower := lowerASCII; TrimSpace := trimASCII |}.

(** ** A YAML codec for plain scalars *)

(** The scalars the library writes in plain style and reads back as the
    same string: they start with a letter, consist of letters, digits,
    single inner spaces and the punctuation [/ . - _ :], a colon is never
    followed by a space or by the end, and they are none of the words the
    library resolves to a boolean or to null. *)
Definition isLetter (c : ascii) : bool :=
  let n := N_of_ascii c in
  ((65 <=? n) && (n <=? 90) || (97 <=? n) && (n <=? 122))%N.

Definition isPlainByte (c : ascii) : bool :=
  let n := N_of_ascii c in
  (isLetter c || (48 <=? n) && (n <=? 57) || (n =? 32) || (n =? 45) || (n =? 46)
   || (n =? 47) || (n =? 58) || (n =? 95))%N.

Fixpoint plainTail (s : string) : bool :=
  match s with
  | EmptyString => true
  | String c s' =>
      isPlainByte c && plainTail s' &&
      match s' with
      | EmptyString => negb (Ascii.eqb c " ") && negb (Ascii.eqb c ":")
      | String d _ => negb ((Ascii.eqb c " " || Ascii.eqb c ":") && Ascii.eqb d " ")
      end
  end.

Definition reservedWords : list string :=
  [ "true"; "True"; "TRUE"; "false"; "False"; "FALSE"; "null"; "Null"; "NULL";
    "y"; "Y"; "yes"; "Yes"; "YES"; "n"; "N"; "no"; "No"; "NO";
    "on"; "On"; "ON"; "off"; "Off"; "OFF" ].

Definition plainString (s : string) : bool :=
  match s with
  | EmptyString => false
  | String c _ => isLetter c && plainTail s && negb (bool_decide (s ∈ reservedWords))
  end.

(** A key whose sequence is being read ends when the next key starts; a key
    without items holds null. *)
Definition flushPending (pending : option (string * list node))
    (m : gmap string node) : gmap string node :=
  match pending with
  | Some (k, []) => <[k := NOther]> m
  | Some (k, items) => <[k := NSeq items]> m
  | None => m
  end.

(** A block mapping, line by line: ["key: scalar"], or ["key:"] followed by
    ["- item"] lines at any indentation. Duplicate keys are an error, as in
    the library. A document outside this fragment is answered by [None];
    no statement below relies on such an answer. *)
Fixpoint plainLines (ls : list string) (pending : option (string * list node))
    (m : gmap string node) : option (gmap string node) :=
  match ls with
  | [] => Some (flushPending pending m)
  | l :: rest =>
      if String.eqb l "" then plainLines rest pending m
      else
        let t := TrimLeftSpace l in
        if HasPrefix t "- " then
          match pending with
          | Some (k, items) =>
              let item := sliceFrom t 2 in
              if plainString item
              then plainLines rest (Some (k, items ++ [NString item])) m
              else None
          | None => None
          end
        else if HasPrefix l " " then None
        else
          match SplitN2 l ":" with
          | [k; v] =>
              let m := flushPending pending m in
              if plainString k && negb (bool_decide (is_Some (m !! k))) then
                if String.eqb v "" then plainLines rest (Some (k, [])) m
                else if HasPrefix v " " && plainString (sliceFrom v 1)
                     then plainLines rest None (<[k := NString (sliceFrom v 1)]> m)
                     else None
              else None
          | _ => None
          end
  end.

Definition plainUnmarshal (text : string) : option (gmap string node) :=
  plainLines (Split text "010"%char) None ∅.

Definition plainYaml : YamlCodec :=
  {| emitScalar := λ _ s, " " +:+ s +:+ LF;
     yamlUnmarshal := plainUnmarshal |}.

(** ** obsidian/Vault.go: the vault as a whole *)

Definition NewVault (p : path) : Vault := mkVault p [].

(** The loop of [InFolder], from position [i] on. The result holds
    pointers to pages, that is positions in [vault.Pages]. *)
Fixpoint inFolderFrom (i : nat) (pages : list Page) (folder : string) : list nat :=
  match pages with
  | [] => []
  | page :: rest =>
      if String.eqb (Folder page) folder
      then i :: inFolderFrom (S i) rest folder
      else inFolderFrom (S i) rest folder
  end.

Definition InFolder (v : Vault) (folder : string) : list nat :=
  let folder := if String.eqb folder "" then "." else folder in
  inFolderFrom 0 (Pages v) folder.

(** The inner loop of [WithTag] over the tags of one page, left by [break]
    at the first tag that is equal. *)
Fixpoint tagIn (tags : list string) (tag : string) : bool :=
  match tags with
  | [] => false
  | t :: rest => if String.eqb t tag then true else tagIn rest tag
  end.

Fixpoint withTagFrom (i : nat) (pages : list Page) (tag : string) : list nat :=
  match pages with
  | [] => []
  | page :: rest =>
      if tagIn (Tags page) tag
      then i :: withTagFrom (S i) rest tag
      else withTagFrom (S i) rest tag
  end.

Definition WithTag (v : Vault) (tag : string) : list nat :=
  withTagFrom 0 (Pages v) tag.

(** [os.Stat] of the marker succeeds and finds a directory. *)
Definition IsVaultPath (fs : FS) (vaultPath : path) : bool :=
  isDir fs (Join vaultPath ".obsidian").

(** The path as a string, as [filepath.WalkDir] hands it to its callback. *)
Definition pathText (p : path) : string := "/" +:+ joinSlash p.

(** [filepath.WalkDir] visits a directory tree depth first and the entries
    of a directory in the order of their names: the paths come in the
    component-wise order of their names, a directory before what it
    holds. [Load] skips directories, so only the regular files count. *)
Fixpoint pathLeb (a b : path) : bool :=
  match a, b with
  | [], _ => true
  | _ :: _, [] => false
  | x :: a', y :: b' => if String.eqb x y then pathLeb a' b' else String.ltb x y
  end.

Definition pathLe (a b : path) : Prop := pathLeb a b = true.

#[global] Instance pathLe_dec a b : Decision (pathLe a b).
Proof. unfold pathLe. apply _. Defined.

(** [p] lies below [root], and every directory between the two exists. *)
Definition below (fs : FS) (root p : path) : bool :=
  bool_decide (take (length root) p = root)
  && bool_decide (length root < length p)%nat
  && forallb (λ n, isDir fs (take n p))
             (seq (S (length root)) (length p - length root - 1)).

(** The regular files the walk from a directory [root] reaches, in the
    order of the walk. *)
Definition walkFiles (fs : FS) (root : path) : list path :=
  merge_sort pathLe (filter (λ p, below fs root p = true) (map_to_list (files fs)).*1).

Section load.
Context `{YamlCodec}.

(** The callback of [Load] applied to the files of the walk, one after the
    other. An error ends the walk; the pages appended so far stay in the
    vault. *)
Fixpoint walkLoad (fs : FS) (root : path) (paths : list path) (pages : list Page)
    : option error * list Page :=
  match paths with
  | [] => (None, pages)
  | p :: rest =>
      if negb (HasSuffix (pathText p) ".md") then walkLoad fs root rest pages
      else match loadPage fs p root with
           | Err e => (Some e, pages)
           | Ok page => walkLoad fs root rest (pages ++ [page])
           end
  end.

(** [Load]. A root that is a regular file is the only entry of its walk; a
    root that does not exist is an error of the walk itself. *)
Definition Load (fs : FS) (v : Vault) : option error * Vault :=
  if isDir fs (Path v) then
    let '(e, pages) := walkLoad fs (Path v) (walkFiles fs (Path v)) (Pages v) in
    (e, mkVault (Path v) pages)
  else
    match files fs !! Path v with
    | Some _ =>
        let '(e, pages) := walkLoad fs (Path v) [Path v] (Pages v) in
        (e, mkVault (Path v) pages)
    | None => (Some ENOENT, v)
    end.

End load.

(** ** Reading the two exports ([fetlife.ReadBlockeds],
    [fetlife.ReadPrivateNotes]; the sync command has the same two
    functions as [readBlockeds] and [readPrivateNotes]) *)

(** The CSV reader and writer of the standard library are outside the
    repository: [csvReadAll] is [csv.NewReader(file).ReadAll()] on the
    content of a file ([None] is a parse error), [csvEncode] is the text a
    [csv.Writer] produces for a list of records. *)
Class Tables : Type := {
  csvReadAll : string → option (list (list string));
  csvEncode : list (list string) → string
}.

(** What a reader can fail with: the file, or its content. *)
Inductive readError : Type :=
| FileError (e : error)
| ParseError.

Inductive readResult (A : Type) : Type :=
| ReadOk (a : A)
| ReadErr (e : readError).
Arguments ReadOk {A} a.
Arguments ReadErr {A} e.

(** The loop over the records, from the record with index [i] on: the
    first record is the header, a record with fewer than four fields is
    skipped. *)
Fixpoint blockedsFrom (i : nat) (records : list (list string))
    (blockeds : list BlockedRecord.t) : list BlockedRecord.t :=
  match records with
  | [] => blockeds
  | record :: rest =>
      if Nat.eqb i 0 then blockedsFrom (S i) rest blockeds
      else if Z.of_nat (length record) <? 4 then blockedsFrom (S i) rest blockeds
      else blockedsFrom (S i) rest
             (blockeds ++ [BlockedRecord.mk (record !!! 0%nat) (record !!! 1%nat)
                                            (record !!! 2%nat) (record !!! 3%nat)])
  end.

Fixpoint notesFrom (i : nat) (records : list (list string))
    (notes : list PrivateNoteRecord.t) : list PrivateNoteRecord.t :=
  match records with
  | [] => notes
  | record :: rest =>
      if Nat.eqb i 0 then notesFrom (S i) rest notes
      else if Z.of_nat (length record) <? 4 then notesFrom (S i) rest notes
      else notesFrom (S i) rest
             (notes ++ [PrivateNoteRecord.mk (record !!! 0%nat) (record !!! 1%nat)
                                             (record !!! 2%nat) (record !!! 3%nat)])
  end.

Section readers.
Context `{Tables}.

Definition ReadBlockeds (fs : FS) (dataDir : path) : readResult (list BlockedRecord.t) :=
  match ReadFile fs (Join dataDir "blockeds.txt") with
  | Err e => ReadErr (FileError e)
  | Ok text =>
      match csvReadAll text with
      | None => ReadErr ParseError
      | Some records => ReadOk (blockedsFrom 0 records [])
      end
  end.

Definition ReadPrivateNotes (fs : FS) (dataDir : path)
    : readResult (list PrivateNoteRecord.t) :=
  match ReadFile fs (Join dataDir "private_notes.txt") with
  | Err e => ReadErr (FileError e)
  | Ok text =>
      match csvReadAll text with
      | None => ReadErr ParseError
      | Some records => ReadOk (notesFrom 0 records [])
      end
  end.

End readers.

(** ** [SyncCmd.Run] *)

(** What [Run] can return: the error of [Load] or of a reader. *)
Inductive runError : Type :=
| LoadFailed (e : error)
| ReadFailed (e : readError).

Section run.
Context `{YamlCodec} `{Unicode} `{Tables}.

(** [Run], with [sync.DataDir] as an argument of its own. It returns the
    vault it has loaded together with the disk. *)
Definition SyncCmd_Run (sync : SyncCmd) (dataDir : path) (options : Options) (fs : FS)
    : option runError * World :=
  let v := NewVault (OptionsVault options) in
  match Load fs v with
  | (Some e, v) => (Some (LoadFailed e), mkWorld v fs)
  | (None, v) =>
      match ReadBlockeds fs dataDir with
      | ReadErr e => (Some (ReadFailed e), mkWorld v fs)
      | ReadOk blockeds =>
          match ReadPrivateNotes fs dataDir with
          | ReadErr e => (Some (ReadFailed e), mkWorld v fs)
          | ReadOk privateNotes =>
              let w := processBlockeds sync options (mkWorld v fs) blockeds in
              let w := processPrivateNotes sync options w privateNotes in
              (None, w)
          end
      end
  end.

End run.

(** ** program/generate.go: the report *)

Definition csvHeader : list string :=
  ["User ID"; "Nickname"; "URL"; "Blocked"; "Blocked At"; "Private Note";
   "Note Created"; "Note Updated"].

(** The record [writeCSV] writes for one user. *)
Definition csvRecord (user : MergedUser.t) : list string :=
  let blocked := if MergedUser.Blocked user then "Yes" else "No" in
  [MergedUser.UserID user; MergedUser.Nickname user; MergedUser.URL user; blocked;
   MergedUser.BlockedAt user; MergedUser.PrivateNote user;
   MergedUser.NoteCreated user; MergedUser.NoteUpdated user].

(** The records [writeCSV] hands to the writer, the header first. *)
Definition csvRecords (users : list MergedUser.t) : list (list string) :=
  csvHeader :: (csvRecord <$> users).

(** [writeCSV]: [os.Create] and the writes that follow, as one write of
    the encoded records. *)
Definition writeCSV `{Tables} (fs : FS) (p : path) (users : list MergedUser.t) : result FS :=
  WriteFile fs p (csvEncode (csvRecords users)).

(** ** Vocabulary of the statements *)

(** One string sits inside another, or at its end. *)
Definition occursIn (sub s : string) : Prop := ∃ pre post, s = pre +:+ sub +:+ post.
Definition endsWith (suf s : string) : Prop := ∃ pre, s = pre +:+ suf.

(** The six metadata fields are all set, and all zero. *)
Definition allFieldsSet (page : Page) : Prop :=
  Tags page ≠ [] ∧ Aliases page ≠ [] ∧ Url page ≠ "" ∧ UrlAliases page ≠ []
  ∧ WebBadgeColor page ≠ "" ∧ WebMessage page ≠ "".

Definition zeroMetadata (page : Page) : Prop :=
  Tags page = [] ∧ Aliases page = [] ∧ Url page = "" ∧ UrlAliases page = []
  ∧ WebBadgeColor page = "" ∧ WebMessage page = "".

(** Two pages agree on the six metadata fields and on the body. *)
Definition sameDocument (q page : Page) : Prop :=
  Tags q = Tags page ∧ Aliases q = Aliases page ∧ Url q = Url page
  ∧ UrlAliases q = UrlAliases page ∧ WebBadgeColor q = WebBadgeColor page
  ∧ WebMessage q = WebMessage page ∧ Content q = Content page.

(** What the decoder makes of a value the encoder wrote, when the codec
    loses nothing: a [string] stays a [string], a [[]string] comes back as
    a [[]interface{}] of strings. *)
Definition decodeField (f : field) : node :=
  match f with
  | FString s => NString s
  | FStrings l => NSeq (NString <$> l)
  end.

(** The metadata value of a page under one of the six keys, when the field
    is not empty. *)
Definition fieldOf (page : Page) (key : string) : option field :=
  let strings (l : list string) :=
    match l with [] => None | _ => Some (FStrings l) end in
  let scalar (v : string) :=
    match v with EmptyString => None | _ => Some (FString v) end in
  if String.eqb key "tags" then strings (Tags page)
  else if String.eqb key "aliases" then strings (Aliases page)
  else if String.eqb key "url" then scalar (Url page)
  else if String.eqb key "url-aliases" then strings (UrlAliases page)
  else if String.eqb key "web-badge-color" then scalar (WebBadgeColor page)
  else if String.eqb key "web-message" then scalar (WebMessage page)
  else None.

(** The non-empty fields of a page, taken in a given order of the keys. *)
Definition presentEntries (order : list string) (page : Page) : list (string * field) :=
  omap (λ key, (λ f, (key, f)) <$> fieldOf page key) order.

(** The order of the keys in the text of [Save], and the order in which
    the encoder writes them. *)
Definition sourceOrder : list string :=
  ["tags"; "aliases"; "url"; "url-aliases"; "web-badge-color"; "web-message"].
Definition writtenOrder : list string :=
  ["aliases"; "tags"; "url"; "url-aliases"; "web-badge-color"; "web-message"].

(** The front matter [Save] writes for a list of entries. *)
Definition frontMatter `{YamlCodec} (entries : list (string * field)) : string :=
  match entries with
  | [] => ""
  | _ => delim +:+ String.concat "" (emitEntry <$> entries) +:+ delim
  end.

(** A URL carries an identifier in the way [findPageByUserID] looks for:
    ["/users/<id>"] somewhere in it, or ["/<id>"] at its end. *)
Definition encodes (userID url : string) : Prop :=
  occursIn ("/users/" +:+ userID) url ∨ endsWith ("/" +:+ userID) url.

Definition pageMatches (userID : string) (page : Page) : Prop :=
  encodes userID (Url page)
  ∨ ∃ urlAlias, urlAlias ∈ UrlAliases page ∧ encodes userID urlAlias.

(** The keywords of a rule as they are written in it: the pieces between
    the commas after the first colon, without the white space around
    them; a piece of white space only is no keyword. *)
Definition writtenKeywords `{Unicode} (rule : string) : list string :=
  match SplitN2 rule ":" with
  | [_; kws] =>
      if String.eqb kws "" then []
      else filter (λ kw, kw ≠ "") (TrimSpace <$> Split kws ",")
  | _ => []
  end.

(** A rule matches a note when one of its keywords occurs in the note,
    letter case aside: the lower-case form of the keyword occurs in the
    lower-case form of the note. *)
Definition ruleMatches `{Unicode} (note rule : string) : Prop :=
  ∃ keyword, keyword ∈ writtenKeywords rule
             ∧ occursIn (ToLower keyword) (ToLower note).

(** [i] is the first rule of the list that matches the note. *)
Definition firstMatch `{Unicode} (rules : list string) (note : string) (i : nat)
    (rule : string) : Prop :=
  rules !! i = Some rule ∧ ruleMatches note rule
  ∧ ∀ j earlier, (j < i)%nat → rules !! j = Some earlier → ¬ ruleMatches note earlier.

(** How often the tag ["blocked"] occurs in a tag list. *)
Definition blockedCount (tags : list string) : nat :=
  length (filter (λ tag, tag = "blocked") tags).

(** A command line, and a vault in which two pages carry the identifier
    12345, one in its URL and one in a URL alias. *)
Definition sampleSync : SyncCmd :=
  mkSyncCmd ["People"; "Bad People:creepy,stalker"] "Blocked".
Definition sampleOptions : Options := mkOptions ["vault"].
Definition sampleBlocked : BlockedRecord.t :=
  BlockedRecord.mk "12345" "2024-01-01" "2024-01-02" "BadUser".
Definition sampleNote : PrivateNoteRecord.t :=
  PrivateNoteRecord.mk "12345" "2024-01-01" "2024-01-02" "met at an event".
Definition emptyDisk : FS := mkFS ∅ {[ ["vault"] ]}.
Definition twinWorld : World :=
  mkWorld
    (mkVault ["vault"]
       [ setUrl (userURL "12345") (newPage ["vault"; "People"; "A.md"]);
         setUrlAliases [userURL "12345"] (newPage ["vault"; "People"; "B.md"]) ])
    emptyDisk.

(** The three shapes of a merged record: from a blocked record alone, from
    a note record alone, and from both. *)
Definition blockedOnly (b : BlockedRecord.t) : MergedUser.t :=
  MergedUser.mk (BlockedRecord.UserID b) (BlockedRecord.Nickname b)
                (userURL (BlockedRecord.UserID b)) true (BlockedRecord.CreatedAt b)
                "" "" "".

Definition noteOnly (n : PrivateNoteRecord.t) : MergedUser.t :=
  MergedUser.mk (PrivateNoteRecord.MemberID n) ""
                (userURL (PrivateNoteRecord.MemberID n)) false ""
                (PrivateNoteRecord.PrivateNote n) (PrivateNoteRecord.CreatedAt n)
                (PrivateNoteRecord.UpdatedAt n).

Definition blockedAndNote (b : BlockedRecord.t) (n : PrivateNoteRecord.t) : MergedUser.t :=
  MergedUser.mk (BlockedRecord.UserID b) (BlockedRecord.Nickname b)
                (userURL (BlockedRecord.UserID b)) true (BlockedRecord.CreatedAt b)
                (PrivateNoteRecord.PrivateNote n) (PrivateNoteRecord.CreatedAt n)
                (PrivateNoteRecord.UpdatedAt n).

(** The record of a list that an identifier selects: the last one, which
    is the one a Go map keeps. *)
Fixpoint lookupBlocked (id : string) (bs : list BlockedRecord.t) : option BlockedRecord.t :=
  match bs with
  | [] => None
  | b :: rest =>
      match lookupBlocked id rest with
      | Some b' => Some b'
      | None => if decide (BlockedRecord.UserID b = id) then Some b else None
      end
  end.

Fixpoint lookupNote (id : string) (ns : list PrivateNoteRecord.t) : option PrivateNoteRecord.t :=
  match ns with
  | [] => None
  | n :: rest =>
      match lookupNote id rest with
      | Some n' => Some n'
      | None => if decide (PrivateNoteRecord.MemberID n = id) then Some n else None
      end
  end.

(** The two exports of the merge test with mixed data. *)
Definition mixedBlockeds : list BlockedRecord.t :=
  [ BlockedRecord.mk "111" "2024-01-01" "2024-01-01" "User1";
    BlockedRecord.mk "222" "2024-01-02" "2024-01-02" "User2" ].
Definition mixedNotes : list PrivateNoteRecord.t :=
  [ PrivateNoteRecord.mk "222" "2024-01-03" "2024-01-03" "Also has note";
    PrivateNoteRecord.mk "333" "2024-01-04" "2024-01-04" "Only note" ].

(** A vault without pages and without a template; the same vault with the
    template of the tests; and one in which the directory
    [People/user-a] exists. *)
Definition bareWorld : World := mkWorld (mkVault ["vault"] []) emptyDisk.

Definition testTemplate : string :=
  unlines ["---"; "tags:"; "  - person"; "url: https://fetlife.com/users/";
           "---"; ""; "# Notes"].

Definition templateWorld : World :=
  mkWorld (mkVault ["vault"] [])
          (mkFS {[ ["vault"; "Templates"; "People.md"] := testTemplate ]}
                {[ ["vault"]; ["vault"; "Templates"] ]}).



(** Sample data. *)
Definition samplePath : path := ["vault"; "People"; "Al.md"].

Definition sampleDoc : Page :=
  mkPage "Al" "People" ["friend"; "met"] ["Alan"] "https://example.com/al"
         ["https://example.com/users/7"] "red" "hello there" samplePath
         (LF +:+ "# Notes" +:+ LF).

(** The same document with a URL that ends in three dashes, and with a
    message that does. *)
Definition dashDoc : Page := setUrl "https://example.com/al---" sampleDoc.
Definition dashMessageDoc : Page := setWebMessage "see you---" sampleDoc.

(** A disk with the directory of these documents, and no file. *)
Definition peopleDisk : FS := mkFS ∅ {[ ["vault"]; ["vault"; "People"] ]}.

(** A page with tags and aliases only. *)
Definition tagAliasDoc : Page :=
  setAliases ["Alan"] (setTags ["friend"] (newPage samplePath)).

(** A disk that holds one file whose front matter is never closed. *)
Definition unterminated : string :=
  unlines ["---"; "tags:"; "  - friend"; "# Notes"].
Definition unterminatedDisk : FS :=
  mkFS {[ samplePath := unterminated ]} {[ ["vault"]; ["vault"; "People"] ]}.

(** A small vault on disk: two pages in [People], one at the root, a text
    file that is no page, and the marker directory. *)
Definition aliceText : string :=
  unlines ["---"; "tags:"; "  - person"; "  - friend";
           "url: https://fetlife.com/users/12345"; "---"; "# Alice"].
Definition bobText : string :=
  unlines ["---"; "tags:"; "  - person"; "  - blocked"; "  - blocked";
           "url: https://fetlife.com/users/678"; "---"; "# Bob"].
Definition smallDisk : FS :=
  mkFS {[ ["vault"; "People"; "Alice.md"] := aliceText;
          ["vault"; "People"; "Bob.md"] := bobText;
          ["vault"; "Home.md"] := "# Home" +:+ LF;
          ["vault"; "notes.txt"] := "no page" ]}
       {[ ["vault"]; ["vault"; "People"]; ["vault"; ".obsidian"] ]}.

(** The positions, from [i] on, of the pages that pass a test: the shape
    of the loops of [InFolder] and [WithTag]. *)
Fixpoint positionsFrom (test : Page → bool) (i : nat) (pages : list Page) : list nat :=
  match pages with
  | [] => []
  | page :: rest =>
      if test page then i :: positionsFrom test (S i) rest
      else positionsFrom test (S i) rest
  end.

(** The page [loadPage] makes of [People/Alice.md]. *)
Definition alicePage : Page :=
  mkPage "Alice" "People" ["person"; "friend"] [] "https://fetlife.com/users/12345"
         [] "" "" ["vault"; "People"; "Alice.md"] ("# Alice" +:+ LF).

(** The keys [loadPage] reads as lists and as scalars, and the values it
    can make use of under a key: a sequence under a list key, a string
    under a scalar key. *)
Definition listKeys : list string := ["tags"; "aliases"; "url-aliases"].
Definition scalarKeys : list string := ["url"; "web-badge-color"; "web-message"].

Definition usable (key : string) (v : node) : bool :=
  match v with
  | NSeq _ => bool_decide (key ∈ listKeys)
  | NString _ => bool_decide (key ∈ scalarKeys)
  | NOther => false
  end.

(** A page without metadata whose body is plain text. *)
Definition bodyOnlyDoc : Page :=
  setContent ("# Home" +:+ LF +:+ "---" +:+ LF) (newPage ["vault"; "Home.md"]).

(** A page with a URL and a message and nothing else. *)
Definition sparseDoc : Page :=
  setWebMessage "hello" (setUrl "https://example.com/al" (newPage samplePath)).

(** A markdown file, as [Load] tells it from other files. *)
Definition isMarkdown (p : path) : Prop := HasSuffix (pathText p) ".md" = true.


#[global] Instance isMarkdown_dec (p : path) : Decision (isMarkdown p).
Proof. unfold isMarkdown. apply _. Defined.

(** What [Load] has to show for the files of a walk: the page of each
    markdown file, in the order of the walk. *)
Definition loadedFrom `{YamlCodec} (fs : FS) (root : path)
    (paths : list path) (pages : list Page) : Prop :=
  Forall2 (λ p page, loadPage fs p root = Ok page) (filter isMarkdown paths) pages.

(** Two pages that differ at most in their tags and their message. *)
Definition sameIdentity (p q : Page) : Prop :=
  Title p = Title q ∧ Folder p = Folder q ∧ Aliases p = Aliases q
  ∧ Url p = Url q ∧ UrlAliases p = UrlAliases q
  ∧ WebBadgeColor p = WebBadgeColor q
  ∧ FilePath p = FilePath q ∧ Content p = Content q.

(** Two pages with the same URL and URL aliases. *)
Definition sameUrls (p q : Page) : Prop :=
  Url p = Url q ∧ UrlAliases p = UrlAliases q.

(** A vault with one page for user 12345, saved on disk. *)
Definition aliceWorld : World :=
  mkWorld (mkVault ["vault"] [alicePage])
          (mkFS {[ ["vault"; "People"; "Alice.md"] := aliceText ]}
                {[ ["vault"]; ["vault"; "People"] ]}).

(** The shape of the vault after either processor: nothing has changed, or
    one page was appended and updated, or the one page that matched was
    updated. *)
Inductive processed (update : Page → Page) (v v' : Vault) : Prop :=
| processed_same : v' = v → processed update v v'
| processed_created (page : Page) :
    Path v' = Path v → Pages v' = Pages v ++ [update page] → processed update v v'
| processed_updated (ptr : nat) (page : Page) :
    Path v' = Path v → Pages v !! ptr = Some page →
    Pages v' = <[ptr := update page]> (Pages v) → processed update v v'.

(** The name [createPageInFolder] gives the page, and the file it writes. *)
Definition pageNameOf (userID nickname : string) : string :=
  if String.eqb nickname "" then "user-" +:+ userID else nickname.

Definition pageFileOf (options : Options) (folder userID nickname : string) : path :=
  Join (Join (OptionsVault options) folder) (pageNameOf userID nickname +:+ ".md").

(** A vault whose template has neither the title placeholder nor the URL
    line. *)
Definition plainTemplate : string := unlines ["# Person"; ""; "## Notes"].
Definition plainTemplateWorld : World :=
  mkWorld (mkVault ["vault"] [])
          (mkFS {[ ["vault"; "Templates"; "People.md"] := plainTemplate ]}
                {[ ["vault"]; ["vault"; "Templates"] ]}).

(** The fields of a row as the readers take them: the first four, and a
    row with fewer than four gives nothing. *)
Definition rowBlocked (row : list string) : option BlockedRecord.t :=
  match row with
  | a :: b :: c :: d :: _ => Some (BlockedRecord.mk a b c d)
  | _ => None
  end.

Definition rowNote (row : list string) : option PrivateNoteRecord.t :=
  match row with
  | a :: b :: c :: d :: _ => Some (PrivateNoteRecord.mk a b c d)
  | _ => None
  end.

(** A reader of comma-separated lines without quotes: the lines that are
    not empty, cut at the commas. *)
Definition plainTables : Tables :=
  {| csvReadAll := λ text,
       Some ((λ line, Split line ",") <$> filter (λ line, line ≠ "") (Split text "010"%char));
     csvEncode := λ records,
       String.concat "" ((λ record, String.concat "," record +:+ LF) <$> records) |}.

(** The two exports of the sample data directory. *)
Definition dataDisk : FS :=
  mkFS {[ ["data"; "blockeds.txt"] :=
            unlines ["blocked_user_id,created_at,updated_at,blocked_nickname";
                     "12345,2024-01-15,2024-01-16,BadUser";
                     "broken,row";
                     "678,2024-02-01,2024-02-02,Other,extra"];
          ["data"; "private_notes.txt"] :=
            unlines ["member_id,created_at,updated_at,private_note";
                     "12345,2024-03-01,2024-03-02,met at an event"] ]}
       {[ ["data"]; ["vault"] ]}.

(** Every page of the vault is the page of a markdown file. *)
Definition markdownPages (v : Vault) : Prop :=
  Forall (λ page, isMarkdown (FilePath page)) (Pages v).

(** From one disk to a later one, nothing was removed and the files that
    are not markdown files were left alone: each has its content, and no
    directory was made in its place. *)
Definition spares (fs fs' : FS) : Prop :=
  dirs fs ⊆ dirs fs'
  ∧ ∀ q, ¬ isMarkdown q →
         files fs' !! q = files fs !! q
         ∧ (q ∈ dirs fs' → q ∈ dirs fs ∨ files fs !! q = None).

(** A vault with the page of user 12345, next to the two exports. *)
Definition syncDisk : FS :=
  mkFS (<[ ["vault"; "People"; "Alice.md"] := aliceText ]> (files dataDisk))
       {[ ["data"]; ["vault"]; ["vault"; "People"] ]}.

(** What a run keeps of a page: everything but the tags and the message,
    and the tags it had, in front. *)
Definition keptBy (p q : Page) : Prop :=
  sameIdentity p q ∧ Tags p `prefix_of` Tags q.

(** * Properties *)

(** ** The model on the inputs of the test suite *)

Example parseFolderConfig_spaces :
  @parseFolderConfig asciiText "Bad People: creepy , stalker , harassment "
  = ("Bad People", ["creepy"; "stalker"; "harassment"]).
Proof. reflexivity. Qed.

Example parseFolderConfig_mixed_case :
  @parseFolderConfig asciiText "Bad People:Creepy,STALKER,HaRaSsMeNt"
  = ("Bad People", ["creepy"; "stalker"; "harassment"]).
Proof. reflexivity. Qed.

Example parseFolderConfig_no_keywords :
  @parseFolderConfig asciiText "People:" = ("People", []) ∧ @parseFolderConfig asciiText "People" = ("People", []).
Proof. split; reflexivity. Qed.

Example determineFolder_keyword :
  @determineFolderForUser asciiText sampleSync "12345" "This person is really creepy" = "Bad People".
Proof. reflexivity. Qed.

Example determineFolder_default :
  @determineFolderForUser asciiText sampleSync "12345" "Nice person" = "People"
  ∧ @determineFolderForUser asciiText (mkSyncCmd [] "Blocked") "12345" "creepy" = "People".
Proof. split; reflexivity. Qed.

Example ReplaceAll_title :
  ReplaceAll "# {{title}} ({{title}})" "{{title}}" "Bob" = "# Bob (Bob)".
Proof. reflexivity. Qed.

Example Join_cleans :
  Join ["vault"] "Bad People" = ["vault"; "Bad People"]
  ∧ Join ["vault"; "People"] "user-x/../y.md" = ["vault"; "People"; "y.md"].
Proof. split; reflexivity. Qed.

Example Dir_Rel_root : Dir (Rel ["vault"] ["vault"; "Home.md"]) = ".".
Proof. reflexivity. Qed.

Example created_with_nickname :
  ∃ w', @createPageInFolder plainYaml sampleSync templateWorld "12345" "TestUser"
                            "People" sampleOptions = (Ok 0%nat, w')
        ∧ Title <$> Pages (vault w') = ["TestUser"]
        ∧ Folder <$> Pages (vault w') = ["People"].
Proof. eexists. split; [vm_compute; reflexivity |]. split; reflexivity. Qed.


(** ** Facts about the string functions *)

Section string_facts.
Implicit Types s t u : string.

Lemma sapp_nil_r s : s +:+ "" = s.
Proof. induction s as [|c s IH]; simpl; [done | by rewrite IH]. Qed.

Lemma sapp_assoc s t u : (s +:+ t) +:+ u = s +:+ (t +:+ u).
Proof. induction s as [|c s IH]; simpl; [done | by rewrite IH]. Qed.

Lemma slength_app s t : String.length (s +:+ t) = (String.length s + String.length t)%nat.
Proof. induction s as [|c s IH]; simpl; [done | by rewrite IH]. Qed.

Lemma sdrop_app s t : sdrop (String.length s) (s +:+ t) = t.
Proof. induction s as [|c s IH]; simpl; done. Qed.

Lemma stake_app s t : stake (String.length s) (s +:+ t) = s.
Proof. induction s as [|c s IH]; simpl; [by destruct t | by rewrite IH]. Qed.

Lemma stake_sdrop n s : stake n s +:+ sdrop n s = s.
Proof.
  revert n. induction s as [|c s IH]; intros [|n]; simpl; try done.
  by rewrite IH.
Qed.

Lemma sdrop_0 s : sdrop 0 s = s.
Proof. by destruct s. Qed.

(** [HasPrefix], [Contains] and [HasSuffix] decide the three ways in which
    one string can sit inside another. *)
Lemma HasPrefix_nil s : HasPrefix s "" = true.
Proof. by destruct s. Qed.

Lemma HasPrefix_app s t : HasPrefix (s +:+ t) s = true.
Proof.
  induction s as [|c s IH]; simpl; [by destruct t |].
  by rewrite Ascii.eqb_refl.
Qed.

Lemma HasPrefix_inv s p : HasPrefix s p = true → ∃ t, s = p +:+ t.
Proof.
  revert s. induction p as [|c p IH]; intros s Hp.
  - by exists s.
  - destruct s as [|d s]; simpl in Hp; [done |].
    destruct (Ascii.eqb_spec d c) as [->|]; [| done].
    destruct (IH _ Hp) as [t ->]. by exists t.
Qed.

Lemma HasPrefix_iff s p : HasPrefix s p = true ↔ ∃ t, s = p +:+ t.
Proof.
  split; [apply HasPrefix_inv |]. intros [t ->]. apply HasPrefix_app.
Qed.

Lemma Contains_iff s sub :
  Contains s sub = true ↔ ∃ pre post, s = pre +:+ sub +:+ post.
Proof.
  split.
  - induction s as [|c s IH]; cbn [Contains]; intros Hc.
    + rewrite orb_false_r in Hc. apply HasPrefix_inv in Hc as [t Ht].
      by exists "", t.
    + apply orb_true_iff in Hc as [Hp|Hc].
      * apply HasPrefix_inv in Hp as [t Ht]. by exists "", t.
      * destruct (IH Hc) as (pre & post & ->). by exists (String c pre), post.
  - intros (pre & post & ->). induction pre as [|c pre IH].
    + change ("" +:+ sub +:+ post) with (sub +:+ post).
      destruct (sub +:+ post) eqn:E; cbn [Contains]; rewrite <- E, HasPrefix_app; done.
    + change (String c pre +:+ sub +:+ post) with (String c (pre +:+ sub +:+ post)).
      cbn [Contains]. by rewrite IH, orb_true_r.
Qed.

Lemma HasSuffix_iff s suf : HasSuffix s suf = true ↔ ∃ pre, s = pre +:+ suf.
Proof.
  unfold HasSuffix, sliceFrom, len. split.
  - intros [Hl He]%andb_true_iff. apply Z.leb_le in Hl.
    apply String.eqb_eq in He.
    set (n := Z.to_nat (Z.of_nat (String.length s) - Z.of_nat (String.length suf))) in *.
    clearbody n. subst suf. exists (stake n s). by rewrite stake_sdrop.
  - intros [pre ->]. rewrite slength_app. apply andb_true_iff. split.
    + apply Z.leb_le. lia.
    + replace (Z.to_nat _) with (String.length pre) by lia.
      rewrite sdrop_app. apply String.eqb_refl.
Qed.

Lemma Contains_false_iff s sub :
  Contains s sub = false ↔ ∀ pre post, s ≠ pre +:+ sub +:+ post.
Proof.
  split.
  - intros Hc pre post ->.
    assert (Contains (pre +:+ sub +:+ post) sub = true) by (apply Contains_iff; eauto).
    congruence.
  - intros Hn. destruct (Contains s sub) eqn:E; [| done].
    apply Contains_iff in E as (pre & post & ->). by destruct (Hn pre post).
Qed.

(** [Index] answers [-1] exactly when [Contains] answers [false], and
    otherwise a position at which the string can be cut around the
    occurrence. *)
Lemma Index_range s sub : -1 ≤ Index s sub ≤ Z.of_nat (String.length s).
Proof.
  induction s as [|c s IH]; cbn [Index String.length].
  - destruct (HasPrefix "" sub); lia.
  - destruct (HasPrefix (String c s) sub); [lia |].
    destruct (Z.eqb_spec (Index s sub) (-1)); lia.
Qed.

Lemma Index_none s sub : Index s sub = -1 ↔ Contains s sub = false.
Proof.
  induction s as [|c s IH]; cbn [Index Contains].
  - destruct (HasPrefix "" sub); simpl; split; (done || lia).
  - destruct (HasPrefix (String c s) sub); simpl; [split; (done || lia) |].
    pose proof (Index_range s sub).
    destruct (Z.eqb_spec (Index s sub) (-1)) as [E|E].
    + split; [intros _; by apply IH | done].
    + split; [lia |]. intros Hc. apply IH in Hc. done.
Qed.

Lemma Index_cut s sub :
  Index s sub ≠ -1 →
  ∃ post, s = stake (Z.to_nat (Index s sub)) s +:+ sub +:+ post.
Proof.
  induction s as [|c s IH]; cbn [Index].
  - destruct (HasPrefix "" sub) eqn:Hp; [| done]. intros _.
    apply HasPrefix_inv in Hp as [t Ht]. by exists t.
  - destruct (HasPrefix (String c s) sub) eqn:Hp.
    + intros _. apply HasPrefix_inv in Hp as [t Ht]. by exists t.
    + pose proof (Index_range s sub).
      destruct (Z.eqb_spec (Index s sub) (-1)) as [E|E]; [done |]. intros _.
      destruct (IH E) as [post Hpost]. exists post.
      replace (Z.to_nat (Index s sub + 1)) with (S (Z.to_nat (Index s sub))) by lia.
      simpl. by rewrite <- Hpost.
Qed.

Lemma sdrop_add n m s : sdrop (n + m) s = sdrop m (sdrop n s).
Proof.
  revert s. induction n as [|n IH]; intros s; simpl; [done |].
  destruct s as [|c s]; [by destruct m | apply IH].
Qed.

Lemma Index_unfold s sub :
  Index s sub =
  if HasPrefix s sub then 0
  else match s with
       | EmptyString => -1
       | String _ s' => if Index s' sub =? -1 then -1 else Index s' sub + 1
       end.
Proof. by destruct s. Qed.

(** The delimiter is four bytes long and ends in the only line feed it
    holds: an occurrence of it cannot start inside a text and end inside a
    delimiter that follows the text. *)
Lemma HasPrefix_before_delim c y rest :
  HasPrefix (String c y +:+ delim +:+ rest) delim = HasPrefix (String c y) delim.
Proof.
  destruct y as [|c1 [|c2 [|c3 y]]]; cbn;
    repeat (match goal with |- context [Ascii.eqb ?a ?b] => destruct (Ascii.eqb a b) end);
    rewrite ?HasPrefix_nil; done.
Qed.

Lemma Index_at_delim y rest :
  Contains y delim = false →
  Index (y +:+ delim +:+ rest) delim = Z.of_nat (String.length y).
Proof.
  induction y as [|c y IH]; intros Hc.
  - change ("" +:+ delim +:+ rest) with (delim +:+ rest).
    by rewrite Index_unfold, HasPrefix_app.
  - cbn [Contains] in Hc. apply orb_false_iff in Hc as [Hp Hc].
    rewrite Index_unfold, HasPrefix_before_delim, Hp.
    change (String c y +:+ delim +:+ rest) with (String c (y +:+ delim +:+ rest)).
    cbn iota. rewrite (IH Hc).
    destruct (Z.eqb_spec (Z.of_nat (String.length y)) (-1)); simpl String.length; lia.
Qed.

End string_facts.

(** ** Loading a page *)

Lemma omap_NString (l : list string) :
  omap (λ x, match x with NString s => Some s | _ => None end) (NString <$> l) = l.
Proof. induction l as [|x l IH]; [done |]. csimpl. f_equal. apply IH. Qed.

(** A content that starts with the delimiter holds a second one exactly
    when one occurs after the first four bytes. *)
Lemma second_delim content :
  HasPrefix content delim = true →
  Contains (sliceFrom content 4) delim = false ↔
  (∀ pre post, content = pre +:+ delim +:+ post → pre = "").
Proof.
  intros [rest ->]%HasPrefix_inv.
  change (sliceFrom (delim +:+ rest) 4) with rest.
  rewrite Contains_false_iff. split.
  - intros Hno pre post E.
    destruct pre as [|c0 [|c1 [|c2 [|c3 pre]]]]; [done | | | |];
      cbn in E; try (exfalso; congruence).
    exfalso. injection E as _ _ _ _ E. by destruct (Hno pre post).
  - intros Hone pre post ->.
    by specialize (Hone (delim +:+ pre) post eq_refl).
Qed.

(** C9. A file whose content starts with the delimiter line and holds no
    second delimiter is loaded without error; the page has an empty body
    and zero metadata, so that the text after the opening delimiter is not
    in the page, and saving the page writes an empty file. *)
Theorem C9_unterminated_front_matter `{YamlCodec}
    (fs : FS) (filePath vaultPath : path) (content : string) :
  ReadFile fs filePath = Ok content →
  HasPrefix content delim = true →
  (∀ pre post, content = pre +:+ delim +:+ post → pre = "") →
  ∃ page, loadPage fs filePath vaultPath = Ok page
          ∧ Content page = "" ∧ zeroMetadata page
          ∧ FilePath page = filePath ∧ serialize page = "".
Proof.
  intros Hread Hstart Hone.
  apply second_delim in Hone; [| done]. apply Index_none in Hone.
  unfold loadPage, parseContent. rewrite Hread, Hstart, Hone. cbn.
  eexists. split; [reflexivity |]. by repeat split.
Qed.

Lemma C9_unterminated_front_matter_witness :
  ∃ page, @loadPage plainYaml unterminatedDisk samplePath ["vault"] = Ok page
          ∧ Content page = "" ∧ zeroMetadata page
          ∧ FilePath page = samplePath ∧ @serialize plainYaml page = "".
Proof.
  apply (@C9_unterminated_front_matter plainYaml unterminatedDisk samplePath
           ["vault"] unterminated).
  - vm_compute. reflexivity.
  - vm_compute. reflexivity.
  - apply second_delim; vm_compute; reflexivity.
Defined.

(** ** Saving a page *)

(** The entries [yaml.Marshal] writes are the non-empty fields, with the
    keys in the encoder's order. *)
Lemma sortedEntries_buildMetadata (page : Page) :
  sortedEntries (buildMetadata page) = presentEntries writtenOrder page.
Proof.
  destruct page as [title folder tags aliases url urlAliases color message fp body].
  destruct tags, aliases, url, urlAliases, color, message; vm_compute; reflexivity.
Qed.

Lemma size_buildMetadata (page : Page) :
  size (buildMetadata page) = length (presentEntries writtenOrder page).
Proof.
  destruct page as [title folder tags aliases url urlAliases color message fp body].
  destruct tags, aliases, url, urlAliases, color, message; vm_compute; reflexivity.
Qed.

Lemma serialize_frontMatter `{YamlCodec} (page : Page) :
  serialize page = frontMatter (presentEntries writtenOrder page) +:+ Content page.
Proof.
  unfold serialize, frontMatter, yamlMarshal.
  rewrite size_buildMetadata, sortedEntries_buildMetadata.
  by destruct (presentEntries writtenOrder page).
Qed.

(** C7, as the code has it. [Save] writes into the metadata block the
    fields that are not empty and no others, and their keys come in the
    order aliases, tags, url, url-aliases, web-badge-color, web-message:
    the encoder sorts the keys of the Go map, whatever the order of the
    assignments in [Save]. *)
Theorem C7_serialization_key_order `{YamlCodec} (page : Page) :
  emittedKeys (buildMetadata page) = (presentEntries writtenOrder page).*1
  ∧ serialize page = frontMatter (presentEntries writtenOrder page) +:+ Content page.
Proof.
  split; [| apply serialize_frontMatter].
  unfold emittedKeys. by rewrite sortedEntries_buildMetadata.
Qed.

(** C7 as stated fails: a page with a tag and an alias is written with
    [aliases] before [tags]. *)
Lemma C7_source_order_counterexample :
  emittedKeys (buildMetadata tagAliasDoc) = ["aliases"; "tags"]
  ∧ (presentEntries sourceOrder tagAliasDoc).*1 = ["tags"; "aliases"]
  ∧ emittedKeys (buildMetadata tagAliasDoc) ≠ (presentEntries sourceOrder tagAliasDoc).*1
  ∧ @serialize plainYaml tagAliasDoc
    = unlines ["---"; "aliases:"; "    - Alan"; "tags:"; "    - friend"; "---"].
Proof. repeat split; vm_compute; congruence. Qed.

Lemma stringsOf_decoded (l : list string) :
  stringsOf (decodeField <$> Some (FStrings l)) = l.
Proof. apply omap_NString. Qed.

(** A content made of a delimiter, a metadata text free of the delimiter,
    a second delimiter and a body is cut at these places. *)
Lemma parseContent_framed `{YamlCodec} (y body : string) (page0 : Page) :
  Contains y delim = false →
  parseContent (delim +:+ y +:+ delim +:+ body) page0 =
  match yamlUnmarshal y with
  | None => Err EYAML
  | Some metadata => Ok (extractMetadata metadata (setContent body page0))
  end.
Proof.
  intros Hy. unfold parseContent. rewrite HasPrefix_app.
  change (sliceFrom (delim +:+ y +:+ delim +:+ body) 4) with (y +:+ delim +:+ body).
  rewrite (Index_at_delim _ _ Hy).
  destruct (Z.eqb_spec (Z.of_nat (String.length y)) (-1)) as [E|_]; [lia |].
  cbn [negb]. unfold slice, sliceFrom.
  replace (Z.to_nat (Z.of_nat (String.length y) + 4 - 4)) with (String.length y) by lia.
  replace (Z.to_nat (Z.of_nat (String.length y) + 8))
    with (4 + (String.length y + 4))%nat by lia.
  replace (Z.to_nat 4) with 4%nat by done.
  rewrite !sdrop_add.
  change (sdrop 4 (delim +:+ y +:+ delim +:+ body)) with (y +:+ delim +:+ body).
  rewrite stake_app, sdrop_app.
  change (sdrop 4 (delim +:+ body)) with body. done.
Qed.

(** What [Save] wrote is what [os.ReadFile] returns. *)
Lemma ReadFile_after_Save `{YamlCodec} (page : Page) (fs fs' : FS) :
  Save page fs = Ok fs' → ReadFile fs' (FilePath page) = Ok (serialize page).
Proof.
  unfold Save, WriteFile, ReadFile.
  destruct (isDir fs (FilePath page)) eqn:Hd; [done |].
  destruct (isDir fs (removelast (FilePath page))); [| done].
  intros [= <-]. unfold isDir in *. simpl. rewrite Hd.
  by rewrite lookup_insert_eq.
Qed.

(** C1. The round trip fails for a document whose six fields are set and
    one of whose values ends in three dashes. [Save] writes the URL
    [https://example.com/al---] as it is, the three dashes and the line
    feed after them are the text [loadPage] takes for the closing
    delimiter, and the page that is read back from the file has the URL
    [https://example.com/al], no URL aliases, no badge colour, no message,
    and the rest of the metadata block in front of its body. A message
    that ends in three dashes comes back without them, and the body with
    a delimiter line in front. *)
Theorem C1_round_trip_cut_inside_value :
  allFieldsSet dashDoc
  ∧ Url dashDoc = "https://example.com/al---"
  ∧ (∃ fs' q, @Save plainYaml dashDoc peopleDisk = Ok fs'
              ∧ @loadPage plainYaml fs' (FilePath dashDoc) ["vault"] = Ok q
              ∧ Url q = "https://example.com/al"
              ∧ UrlAliases q = [] ∧ WebBadgeColor q = "" ∧ WebMessage q = ""
              ∧ Content q = unlines ["url-aliases:"; "    - https://example.com/users/7";
                                     "web-badge-color: red"; "web-message: hello there";
                                     "---"] +:+ Content dashDoc
              ∧ ¬ sameDocument q dashDoc)
  ∧ allFieldsSet dashMessageDoc
  ∧ WebMessage dashMessageDoc = "see you---"
  ∧ (∃ q, @parseContent plainYaml (@serialize plainYaml dashMessageDoc)
            (newPage (FilePath dashMessageDoc)) = Ok q
          ∧ WebMessage q = "see you"
          ∧ Content q = delim +:+ Content dashMessageDoc
          ∧ ¬ sameDocument q dashMessageDoc).
Proof.
  split; [repeat split; discriminate |]. split; [reflexivity |]. split.
  { eexists _, _. split; [vm_compute; reflexivity |].
    split; [vm_compute; reflexivity |]. repeat (split; [reflexivity |]).
    intros (_ & _ & Hu & _). discriminate Hu. }
  split; [repeat split; discriminate |]. split; [reflexivity |].
  eexists. split; [vm_compute; reflexivity |]. repeat (split; [reflexivity |]).
  intros (_ & _ & _ & _ & _ & Hm & _). discriminate Hm.
Qed.

(** ** The identifier matcher *)

Lemma urlMatches_iff (url userID : string) :
  urlMatches url userID = true ↔ encodes userID url.
Proof.
  unfold urlMatches, encodes, occursIn, endsWith.
  by rewrite orb_true_iff, Contains_iff, HasSuffix_iff.
Qed.

Lemma aliasMatches_iff (urlAliases : list string) (userID : string) :
  aliasMatches urlAliases userID = true
  ↔ ∃ urlAlias, urlAlias ∈ urlAliases ∧ encodes userID urlAlias.
Proof.
  induction urlAliases as [|a l IH]; simpl.
  - split; [done | intros (? & []%elem_of_nil & _)].
  - destruct (urlMatches a userID) eqn:E.
    + split; [| done]. intros _. exists a. split; [left |]. by apply urlMatches_iff.
    + rewrite IH. split.
      * intros (x & Hx & He). exists x. split; [by right | done].
      * intros (x & [->|Hx]%elem_of_cons & He); [| by exists x].
        apply urlMatches_iff in He. congruence.
Qed.

Lemma findFrom_cons (i : nat) (page : Page) (rest : list Page) (userID : string) :
  findFrom i (page :: rest) userID =
  if urlMatches (Url page) userID || aliasMatches (UrlAliases page) userID
  then i :: findFrom (S i) rest userID
  else findFrom (S i) rest userID.
Proof. simpl. by destruct (urlMatches _ _), (aliasMatches _ _). Qed.

Lemma pageMatches_iff (page : Page) (userID : string) :
  urlMatches (Url page) userID || aliasMatches (UrlAliases page) userID = true
  ↔ pageMatches userID page.
Proof.
  unfold pageMatches. by rewrite orb_true_iff, urlMatches_iff, aliasMatches_iff.
Qed.

Lemma findFrom_elem (i : nat) (pages : list Page) (userID : string) (j : nat) :
  j ∈ findFrom i pages userID
  ↔ ∃ k page, j = (i + k)%nat ∧ pages !! k = Some page ∧ pageMatches userID page.
Proof.
  revert i. induction pages as [|page rest IH]; intros i.
  - simpl. split; [intros []%elem_of_nil | by intros (k & q & _ & ? & _)].
  - rewrite findFrom_cons.
    destruct (urlMatches _ _ || aliasMatches _ _) eqn:E.
    + rewrite elem_of_cons, IH. split.
      * intros [->|(k & q & -> & Hk & Hq)].
        -- exists 0%nat, page. split; [lia |]. split; [done |]. by apply pageMatches_iff.
        -- exists (S k), q. split; [lia | done].
      * intros ([|k] & q & -> & Hk & Hq); [left; lia |].
        right. exists k, q. split; [lia | done].
    + rewrite IH. split.
      * intros (k & q & -> & Hk & Hq). exists (S k), q. split; [lia | done].
      * intros ([|k] & q & -> & Hk & Hq).
        -- simpl in Hk. injection Hk as <-. apply pageMatches_iff in Hq. congruence.
        -- exists k, q. split; [lia | done].
Qed.

Lemma findFrom_sorted (i : nat) (pages : list Page) (userID : string) :
  StronglySorted lt (findFrom i pages userID).
Proof.
  revert i. induction pages as [|page rest IH]; intros i; [constructor |].
  rewrite findFrom_cons. destruct (_ || _); [| apply IH].
  constructor; [apply IH |]. apply Forall_forall. intros j Hj.
  apply findFrom_elem in Hj as (k & _ & -> & _). lia.
Qed.

(** C3. [findPageByUserID] returns, in the order of the collection, exactly
    the pages whose URL holds ["/users/<id>"] or ends in ["/<id>"], or one
    of whose URL aliases does. Nothing parses the URL: the page of user
    12345 is also found for the identifier 123. *)
Theorem C3_findByIdentifier (v : Vault) (userID : string) :
  (∃ ptrs, findPageByUserID v userID = Ok ptrs
           ∧ StronglySorted lt ptrs
           ∧ ∀ i, i ∈ ptrs ↔ ∃ page, Pages v !! i = Some page ∧ pageMatches userID page)
  ∧ (∃ (page : Page) (id other : string),
        id ≠ other ∧ Url page = userURL other ∧ UrlAliases page = []
        ∧ findPageByUserID (mkVault [] [page]) id = Ok [0%nat]).
Proof.
  split.
  - exists (findFrom 0 (Pages v) userID). split; [done |].
    split; [apply findFrom_sorted |]. intros i. rewrite findFrom_elem. split.
    + intros (k & page & -> & ? & ?). by exists page.
    + intros (page & ? & ?). by exists i, page.
  - exists (setUrl (userURL "12345") (newPage [])), "123", "12345".
    split; [discriminate |]. by vm_compute.
Qed.

(** ** The folder router *)

(** The keywords [parseFolderConfig] returns are the keywords as written,
    each in lower case. *)
Lemma collectKeywords_written `{Unicode} (keywordParts : list string) :
  collectKeywords keywordParts
  = ToLower <$> filter (λ kw, kw ≠ "") (TrimSpace <$> keywordParts).
Proof.
  induction keywordParts as [|kw rest IH]; [done |]. cbn [collectKeywords].
  rewrite fmap_cons, filter_cons, IH.
  destruct (String.eqb_spec (TrimSpace kw) "") as [E|E]; cbn [negb].
  - by rewrite decide_False by (intros Hne; by apply Hne).
  - by rewrite decide_True.
Qed.

Lemma parseFolderConfig_written `{Unicode} (config : string) :
  (parseFolderConfig config).2 = ToLower <$> writtenKeywords config.
Proof.
  unfold parseFolderConfig, writtenKeywords. cbn [snd].
  destruct (SplitN2 config ":") as [|? [|kws [|? ?]]]; try done.
  destruct (String.eqb kws ""); cbn [negb]; [done | apply collectKeywords_written].
Qed.

Lemma keywordMatches_iff (lowerNote : string) (keywords : list string) :
  keywordMatches lowerNote keywords = true
  ↔ ∃ keyword, keyword ∈ keywords ∧ occursIn keyword lowerNote.
Proof.
  unfold occursIn. induction keywords as [|kw rest IH]; simpl.
  - split; [done | intros (? & []%elem_of_nil & _)].
  - destruct (Contains lowerNote kw) eqn:E.
    + split; [| done]. intros _. exists kw. split; [left |]. by apply Contains_iff.
    + rewrite IH. split.
      * intros (x & Hx & He). exists x. split; [by right | done].
      * intros (x & [->|Hx]%elem_of_cons & He); [| by exists x].
        apply Contains_iff in He. congruence.
Qed.

(** The test of one rule inside the loop of [determineFolderForUser]. *)
Lemma rule_test_iff `{Unicode} (note config : string) :
  (0 <? Z.of_nat (length (parseFolderConfig config).2))
  && keywordMatches (ToLower note) (parseFolderConfig config).2 = true
  ↔ ruleMatches note config.
Proof.
  unfold ruleMatches. rewrite andb_true_iff, keywordMatches_iff.
  rewrite parseFolderConfig_written. split.
  - intros (_ & lower & (kw & -> & Hkw)%list_elem_of_fmap & Ho). by exists kw.
  - intros (kw & Hkw & Ho). split.
    + destruct (writtenKeywords config); [by apply elem_of_nil in Hkw | done].
    + exists (ToLower kw). split; [| done]. apply list_elem_of_fmap. by exists kw.
Qed.

Lemma scanConfigs_cons `{Unicode} (lowerNote config : string) (rest : list string) :
  scanConfigs lowerNote (config :: rest) =
  if (0 <? Z.of_nat (length (parseFolderConfig config).2))
     && keywordMatches lowerNote (parseFolderConfig config).2
  then Some (parseFolderConfig config).1
  else scanConfigs lowerNote rest.
Proof. cbn [scanConfigs]. by destruct (parseFolderConfig config). Qed.

Lemma scanConfigs_spec `{Unicode} (note : string) (configs : list string) :
  match scanConfigs (ToLower note) configs with
  | Some folder => ∃ i rule, firstMatch configs note i rule
                             ∧ folder = (parseFolderConfig rule).1
  | None => ∀ rule, rule ∈ configs → ¬ ruleMatches note rule
  end.
Proof.
  induction configs as [|config rest IH].
  - simpl. by intros rule ?%elem_of_nil.
  - rewrite scanConfigs_cons.
    destruct (_ && _) eqn:E.
    + apply rule_test_iff in E. exists 0%nat, config.
      split; [| done]. split; [done |]. split; [done |]. intros j ? Hj. lia.
    + assert (¬ ruleMatches note config) as Hno.
      { intros Hm%rule_test_iff. congruence. }
      destruct (scanConfigs (ToLower note) rest) as [folder|].
      * destruct IH as (i & rule & (Hi & Hm & Hfirst) & ->).
        exists (S i), rule. split; [| done]. split; [done |]. split; [done |].
        intros [|j] earlier Hj Hl; simpl in Hl; [by injection Hl as <- |].
        apply (Hfirst j); [lia | done].
      * intros rule [->|?]%elem_of_cons; [done | by apply IH].
Qed.

(** The first matching rule of a list is unique. *)
Lemma firstMatch_unique `{Unicode} (rules : list string) (note : string)
    (i j : nat) (rule rule' : string) :
  firstMatch rules note i rule → firstMatch rules note j rule' → rule = rule'.
Proof.
  intros (Hi & Hm & Hfi) (Hj & Hm' & Hfj).
  destruct (Nat.lt_trichotomy i j) as [Hlt|[->|Hlt]].
  - by destruct (Hfj i rule Hlt Hi).
  - congruence.
  - by destruct (Hfi j rule' Hlt Hj).
Qed.

(** C2. [determineFolderForUser] is a total function of the rule list and
    the note. Without rules it answers ["People"]. For a non-empty note it
    answers the folder of the first rule, in order, one of whose keywords
    occurs in the note, letter case aside. When the note is empty or no
    rule matches, it answers the folder of the first rule, whatever the
    keywords of that rule. One of the three cases always applies. *)
Theorem C2_routeUser `{Unicode} (sync : SyncCmd) (userID note : string) :
  let rules := CreatePeopleIn sync in
  let folder := determineFolderForUser sync userID note in
  (rules = [] → folder = "People")
  ∧ (∀ i rule, note ≠ "" → firstMatch rules note i rule →
       folder = (parseFolderConfig rule).1)
  ∧ (∀ first rest, rules = first :: rest →
       note = "" ∨ (∀ rule, rule ∈ rules → ¬ ruleMatches note rule) →
       folder = (parseFolderConfig first).1)
  ∧ (rules = []
     ∨ (note ≠ "" ∧ ∃ i rule, firstMatch rules note i rule)
     ∨ (∃ first rest, rules = first :: rest
          ∧ (note = "" ∨ ∀ rule, rule ∈ rules → ¬ ruleMatches note rule))).
Proof.
  intros rules folder. subst folder. unfold determineFolderForUser. fold rules.
  pose proof (scanConfigs_spec note rules) as Hscan.
  destruct rules as [|first rest] eqn:Hrules.
  { split; [done |]. split; [by intros i rule _ (Hi & _) |].
    split; [done | by left]. }
  change (Z.of_nat (length (first :: rest)) =? 0) with false. cbn iota.
  destruct (String.eqb_spec note "") as [->|Hnote]; cbn [negb].
  - split; [done |]. split; [done |]. split.
    + by intros ? ? [= <- <-] _.
    + right. right. exists first, rest. split; [done | by left].
  - destruct (scanConfigs (ToLower note) (first :: rest)) as [folder|].
    + destruct Hscan as (i & rule & Hfirst & ->).
      split; [done |]. split; [| split].
      * intros j rule' _ Hfirst'. by rewrite (firstMatch_unique _ _ _ _ _ _ Hfirst Hfirst').
      * intros ? ? [= <- <-] [?|Hno]; [done |].
        destruct Hfirst as (Hi & Hm & _).
        destruct (Hno rule); [by eapply list_elem_of_lookup_2 | done].
      * right. left. split; [done |]. by exists i, rule.
    + split; [done |]. split; [| split].
      * intros i rule _ (Hi & Hm & _).
        destruct (Hscan rule); [by eapply list_elem_of_lookup_2 | done].
      * by intros ? ? [= <- <-] _.
      * right. right. exists first, rest. split; [done | by right].
Qed.

Lemma C2_routeUser_witness :
  @determineFolderForUser asciiText
    (mkSyncCmd ["People"; "Bad People: Creepy , stalker"] "Blocked")
    "12345" "This person is really CREEPY"
  = "Bad People".
Proof.
  pose proof (@C2_routeUser asciiText
                (mkSyncCmd ["People"; "Bad People: Creepy , stalker"] "Blocked")
                "12345" "This person is really CREEPY") as (_ & Hfirst & _).
  apply (Hfirst 1%nat "Bad People: Creepy , stalker"); [discriminate |].
  split; [reflexivity |]. split.
  - exists "Creepy". split; [vm_compute; left |].
    by exists "this person is really ", "".
  - intros [|[|j]] earlier Hj Hl; [| lia | lia].
    injection Hl as <-. intros (kw & Hkw & _). vm_compute in Hkw.
    by apply elem_of_nil in Hkw.
Defined.

(** ** The update of a blocked user's page *)

Lemma hasBlockedTag_iff (tags : list string) :
  hasBlockedTag tags = true ↔ "blocked" ∈ tags.
Proof.
  induction tags as [|tag rest IH]; simpl.
  - split; [done | by intros ?%elem_of_nil].
  - destruct (String.eqb_spec tag "blocked") as [->|Hne].
    + split; [intros _; left | done].
    + rewrite IH, elem_of_cons. split; [by right |].
      intros [?|?]; [congruence | done].
Qed.

Lemma blockedCount_zero (tags : list string) :
  "blocked" ∉ tags → blockedCount tags = 0%nat.
Proof.
  unfold blockedCount. induction tags as [|tag rest IH]; [done |].
  intros [Hne Hrest]%not_elem_of_cons. rewrite filter_cons.
  destruct (decide (tag = "blocked")); [congruence | by apply IH].
Qed.

Lemma blockedCount_pos (tags : list string) :
  "blocked" ∈ tags → (1 ≤ blockedCount tags)%nat.
Proof.
  unfold blockedCount. induction tags as [|tag rest IH]; [by intros ?%elem_of_nil |].
  rewrite filter_cons. intros [<-|Hin]%elem_of_cons.
  - rewrite decide_True by done. simpl. lia.
  - destruct (decide _); simpl; [lia | by apply IH].
Qed.

Lemma updateAndSave_twice `{YamlCodec} (update : Page → Page) (ptr : nat) (w : World) :
  (∀ page, update (update page) = update page) →
  updateAndSave update ptr (updateAndSave update ptr w).2 = updateAndSave update ptr w.
Proof.
  intros Hidem.
  set (page := update (Pages (vault w) !!! ptr)).
  set (w1 := storePage ptr page w).
  assert (update (Pages (vault w1) !!! ptr) = page) as Hpage.
  { subst w1 page. simpl. destruct (decide (ptr < length (Pages (vault w)))%nat).
    - by rewrite list_lookup_total_insert_eq, Hidem.
    - by rewrite list_insert_ge by lia. }
  assert (storePage ptr page w1 = w1) as Hstore.
  { subst w1. unfold storePage. simpl. by rewrite list_insert_insert_eq. }
  assert (updateAndSave update ptr w =
          match Save page (disk w1) with
          | Err e => (Some e, w1)
          | Ok fs' => (None, setDisk fs' w1)
          end) as -> by done.
  clearbody w1 page.
  destruct (Save page (disk w1)) as [fs'|e] eqn:Hsave; simpl.
  - unfold updateAndSave. simpl. rewrite Hpage.
    change (storePage ptr page (setDisk fs' w1))
      with (setDisk fs' (storePage ptr page w1)).
    rewrite Hstore. simpl.
    revert Hsave. unfold Save, WriteFile, isDir. simpl.
    destruct (bool_decide _) eqn:Hd1; [done |].
    destruct (bool_decide (removelast _ = [] ∨ _)) eqn:Hd2; [| done].
    intros [= <-]. simpl. rewrite Hd1, Hd2. unfold setDisk. simpl.
    by rewrite insert_insert_eq.
  - unfold updateAndSave. rewrite Hpage, Hstore, Hsave. done.
Qed.

Lemma blockedUpdate_idem (blocked : BlockedRecord.t) (page : Page) :
  blockedUpdate blocked (blockedUpdate blocked page) = blockedUpdate blocked page.
Proof.
  destruct page as [title folder tags aliases url urlAliases color message fp body].
  assert (hasBlockedTag (tags ++ ["blocked"]) = true) as Ht'.
  { apply hasBlockedTag_iff, elem_of_app. right. left. }
  unfold blockedUpdate. simpl.
  destruct (hasBlockedTag tags) eqn:Ht; destruct message as [|c m]; simpl;
    rewrite ?Ht, ?Ht'; done.
Qed.

(** C5. The update of a blocked user's page is idempotent: applied to its
    own result it changes nothing, in memory and on disk. It appends the
    tag ["blocked"] only when the tag is absent, after the tags that are
    there, so that it never adds a second one; and it sets the message to
    ["Blocked on <createdAt>"] only when the message is empty. *)
Theorem C5_blocked_update_idempotent `{YamlCodec} (blocked : BlockedRecord.t) (page : Page) :
  let once := blockedUpdate blocked page in
  let twice := blockedUpdate blocked once in
  Tags twice = Tags once ∧ WebMessage twice = WebMessage once ∧ twice = once
  ∧ Tags once = (if decide ("blocked" ∈ Tags page)
                 then Tags page else Tags page ++ ["blocked"])
  ∧ blockedCount (Tags once) = Nat.max 1 (blockedCount (Tags page))
  ∧ WebMessage once = (if decide (WebMessage page = "")
                       then "Blocked on " +:+ BlockedRecord.CreatedAt blocked
                       else WebMessage page)
  ∧ (∀ ptr w,
       updateAndSave (blockedUpdate blocked) ptr
                     (updateAndSave (blockedUpdate blocked) ptr w).2
       = updateAndSave (blockedUpdate blocked) ptr w).
Proof.
  pose proof (blockedUpdate_idem blocked) as Hidem.
  intros once twice. subst twice once. rewrite Hidem.
  split; [done |]. split; [done |]. split; [done |].
  assert (Tags (blockedUpdate blocked page)
          = if decide ("blocked" ∈ Tags page) then Tags page else Tags page ++ ["blocked"])
    as Htags.
  { unfold blockedUpdate. destruct (hasBlockedTag (Tags page)) eqn:Ht; cbn [negb].
    - apply hasBlockedTag_iff in Ht. rewrite decide_True by done.
      by destruct (String.eqb _ _).
    - rewrite decide_False by (rewrite <- hasBlockedTag_iff; congruence).
      by destruct (String.eqb _ _). }
  split; [done |]. split; [| split].
  - rewrite Htags. destruct (decide _) as [Hin|Hout].
    + pose proof (blockedCount_pos _ Hin). lia.
    + rewrite (blockedCount_zero _ Hout). unfold blockedCount.
      rewrite filter_app, length_app. fold (blockedCount (Tags page)).
      by rewrite (blockedCount_zero _ Hout).
  - unfold blockedUpdate.
    destruct (negb _); simpl;
      destruct (String.eqb_spec (WebMessage page) "");
      first [by rewrite decide_True | by rewrite decide_False].
  - intros ptr w. by apply updateAndSave_twice.
Qed.

(** ** Records that match several pages *)

(** C4. A blocked record or a note record whose identifier matches more
    than one page changes nothing: no page, no file; the processor returns
    no error, and the loop of [Run] goes on with the records that follow as
    if the record had not been there. *)
Theorem C4_ambiguity_skip `{YamlCodec} `{Unicode} (sync : SyncCmd) (w : World) (options : Options) :
  (∀ blocked ptrs,
     findPageByUserID (vault w) (BlockedRecord.UserID blocked) = Ok ptrs →
     (1 < length ptrs)%nat →
     processBlocked sync w blocked options = (None, w)
     ∧ ∀ rest, processBlockeds sync options w (blocked :: rest)
               = processBlockeds sync options w rest)
  ∧ (∀ note ptrs,
       findPageByUserID (vault w) (PrivateNoteRecord.MemberID note) = Ok ptrs →
       (1 < length ptrs)%nat →
       processPrivateNote sync w note options = (None, w)
       ∧ ∀ rest, processPrivateNotes sync options w (note :: rest)
                 = processPrivateNotes sync options w rest).
Proof.
  split.
  - intros blocked ptrs Hfind Hmany.
    assert (processBlocked sync w blocked options = (None, w)) as Hskip.
    { unfold processBlocked. rewrite Hfind.
      by destruct (Z.ltb_spec 1 (Z.of_nat (length ptrs))); [| lia]. }
    split; [done |]. intros rest. unfold processBlockeds. simpl. by rewrite Hskip.
  - intros note ptrs Hfind Hmany.
    assert (processPrivateNote sync w note options = (None, w)) as Hskip.
    { unfold processPrivateNote. rewrite Hfind.
      by destruct (Z.ltb_spec 1 (Z.of_nat (length ptrs))); [| lia]. }
    split; [done |]. intros rest. unfold processPrivateNotes. simpl. by rewrite Hskip.
Qed.

Lemma C4_ambiguity_skip_witness :
  (@processBlocked plainYaml sampleSync twinWorld sampleBlocked sampleOptions
   = (None, twinWorld))
  ∧ (@processPrivateNote plainYaml asciiText sampleSync twinWorld sampleNote sampleOptions
     = (None, twinWorld)).
Proof.
  pose proof (@C4_ambiguity_skip plainYaml asciiText sampleSync twinWorld sampleOptions)
    as [Hblocked Hnote].
  split.
  - apply (Hblocked sampleBlocked [0; 1]%nat); [reflexivity | simpl; lia].
  - apply (Hnote sampleNote [0; 1]%nat); [reflexivity | simpl; lia].
Defined.

(** ** The record merger *)

Section merge_facts.
Implicit Types (bs : list BlockedRecord.t) (ns : list PrivateNoteRecord.t).
Implicit Types (m : gmap string MergedUser.t) (id : string).

Lemma lookupBlocked_Some id bs b :
  lookupBlocked id bs = Some b → b ∈ bs ∧ BlockedRecord.UserID b = id.
Proof.
  induction bs as [|b0 rest IH]; simpl; [done |].
  destruct (lookupBlocked id rest) as [b'|].
  - intros [= <-]. destruct (IH eq_refl). split; [by right | done].
  - case_decide; [| done]. intros [= <-]. split; [left | done].
Qed.

Lemma lookupBlocked_None id bs :
  lookupBlocked id bs = None ↔ id ∉ BlockedRecord.UserID <$> bs.
Proof.
  induction bs as [|b0 rest IH]; simpl.
  - split; [intros _ ?%elem_of_nil; done | done].
  - rewrite not_elem_of_cons, <- IH.
    destruct (lookupBlocked id rest); [intuition congruence |].
    case_decide; intuition congruence.
Qed.

Lemma lookupBlocked_NoDup bs b :
  NoDup (BlockedRecord.UserID <$> bs) → b ∈ bs →
  lookupBlocked (BlockedRecord.UserID b) bs = Some b.
Proof.
  induction bs as [|b0 rest IH]; [by intros _ ?%elem_of_nil |].
  rewrite fmap_cons, NoDup_cons. intros [Hfresh Hnd] [->|Hin]%elem_of_cons; simpl.
  - apply lookupBlocked_None in Hfresh as ->. by rewrite decide_True.
  - by rewrite (IH Hnd Hin).
Qed.

Lemma lookupNote_Some id ns n :
  lookupNote id ns = Some n → n ∈ ns ∧ PrivateNoteRecord.MemberID n = id.
Proof.
  induction ns as [|n0 rest IH]; simpl; [done |].
  destruct (lookupNote id rest) as [n'|].
  - intros [= <-]. destruct (IH eq_refl). split; [by right | done].
  - case_decide; [| done]. intros [= <-]. split; [left | done].
Qed.

Lemma lookupNote_None id ns :
  lookupNote id ns = None ↔ id ∉ PrivateNoteRecord.MemberID <$> ns.
Proof.
  induction ns as [|n0 rest IH]; simpl.
  - split; [intros _ ?%elem_of_nil; done | done].
  - rewrite not_elem_of_cons, <- IH.
    destruct (lookupNote id rest); [intuition congruence |].
    case_decide; intuition congruence.
Qed.

Lemma lookupNote_NoDup ns n :
  NoDup (PrivateNoteRecord.MemberID <$> ns) → n ∈ ns →
  lookupNote (PrivateNoteRecord.MemberID n) ns = Some n.
Proof.
  induction ns as [|n0 rest IH]; [by intros _ ?%elem_of_nil |].
  rewrite fmap_cons, NoDup_cons. intros [Hfresh Hnd] [->|Hin]%elem_of_cons; simpl.
  - apply lookupNote_None in Hfresh as ->. by rewrite decide_True.
  - by rewrite (IH Hnd Hin).
Qed.

(** The map after the first loop. *)
Lemma addBlocked_lookup m bs id :
  foldl addBlocked m bs !! id =
  match lookupBlocked id bs with
  | Some b => Some (blockedOnly b)
  | None => m !! id
  end.
Proof.
  revert m. induction bs as [|b rest IH]; intros m; simpl; [done |].
  rewrite IH. destruct (lookupBlocked id rest); [done |].
  unfold addBlocked. case_decide as Hid.
  - subst id. by rewrite lookup_insert_eq.
  - by rewrite lookup_insert_ne.
Qed.

(** The map after the second loop: a later note for the same identifier
    overwrites the three note fields and nothing else. *)
Lemma addNote_lookup m ns id :
  foldl addNote m ns !! id =
  match lookupNote id ns with
  | Some n => Some (match m !! id with
                    | Some existing => fillNote n existing
                    | None => noteOnly n
                    end)
  | None => m !! id
  end.
Proof.
  revert m. induction ns as [|n rest IH]; intros m; simpl; [done |].
  rewrite IH. unfold addNote.
  destruct (decide (PrivateNoteRecord.MemberID n = id)) as [<-|Hid].
  - destruct (m !! PrivateNoteRecord.MemberID n) as [existing|] eqn:Hm;
      rewrite lookup_insert_eq; destruct (lookupNote _ rest) as [n'|] eqn:Hn';
      rewrite ?decide_True by done; try done.
    apply lookupNote_Some in Hn' as [_ Hid]. unfold noteOnly, fillNote. simpl.
    by rewrite Hid.
  - destruct (m !! PrivateNoteRecord.MemberID n); rewrite lookup_insert_ne by done;
      destruct (lookupNote id rest); rewrite ?decide_False by done; done.
Qed.

Lemma mergedMap_lookup bs ns id :
  mergedMap bs ns !! id =
  match lookupBlocked id bs, lookupNote id ns with
  | Some b, Some n => Some (blockedAndNote b n)
  | Some b, None => Some (blockedOnly b)
  | None, Some n => Some (noteOnly n)
  | None, None => None
  end.
Proof.
  unfold mergedMap. rewrite addNote_lookup, addBlocked_lookup, lookup_empty.
  by destruct (lookupBlocked id bs), (lookupNote id ns).
Qed.

(** Every record sits in the map under its own identifier. *)
Lemma mergedMap_key bs ns id u :
  mergedMap bs ns !! id = Some u → MergedUser.UserID u = id.
Proof.
  rewrite mergedMap_lookup.
  destruct (lookupBlocked id bs) as [b|] eqn:Hb, (lookupNote id ns) as [n|] eqn:Hn;
    intros [= <-]; simpl;
    try (by apply lookupBlocked_Some in Hb as [_ ?]);
    by apply lookupNote_Some in Hn as [_ ?].
Qed.

Lemma mergeUserData_ids bs ns :
  MergedUser.UserID <$> mergeUserData bs ns = (map_to_list (mergedMap bs ns)).*1.
Proof.
  unfold mergeUserData. rewrite <- list_fmap_compose.
  apply list_fmap_ext. intros i [id u] Hi. simpl.
  apply (mergedMap_key bs ns). apply elem_of_map_to_list.
  by eapply list_elem_of_lookup_2.
Qed.

Lemma mergeUserData_elem bs ns u :
  u ∈ mergeUserData bs ns ↔ ∃ id, mergedMap bs ns !! id = Some u.
Proof.
  unfold mergeUserData. rewrite list_elem_of_fmap. split.
  - intros ([id u'] & -> & Hin%elem_of_map_to_list). by exists id.
  - intros (id & Hid). exists (id, u). split; [done | by apply elem_of_map_to_list].
Qed.

End merge_facts.

Lemma mergedMap_dom (bs : list BlockedRecord.t) (ns : list PrivateNoteRecord.t)
    (id : string) :
  is_Some (mergedMap bs ns !! id)
  ↔ id ∈ BlockedRecord.UserID <$> bs ∨ id ∈ PrivateNoteRecord.MemberID <$> ns.
Proof.
  rewrite mergedMap_lookup.
  pose proof (lookupBlocked_None id bs) as Hb.
  pose proof (lookupNote_None id ns) as Hn.
  destruct (lookupBlocked id bs), (lookupNote id ns); split;
    try (intros _; by eexists); try (intros []; done).
  - intros _. left. apply dec_stable. intros ?. by apply Hb in H.
  - intros _. left. apply dec_stable. intros ?. by apply Hb in H.
  - intros _. right. apply dec_stable. intros ?. by apply Hn in H.
  - intros [Hin|Hin]; [by apply Hb in Hin | by apply Hn in Hin].
Qed.

(** C6. For a blocked list and a note list that each name an identifier at
    most once, [mergeUserData] returns one record per identifier of either
    list and no other: the sum of both lengths when the lists share no
    identifier. A record of an identifier that only the blocked list names
    carries the blocked fields and empty note fields; one that only the
    note list names carries the note fields, is not blocked and has no
    nickname and no blocking date; one that both name carries both. *)
Theorem C6_merge (blockeds : list BlockedRecord.t) (privateNotes : list PrivateNoteRecord.t) :
  NoDup (BlockedRecord.UserID <$> blockeds) →
  NoDup (PrivateNoteRecord.MemberID <$> privateNotes) →
  let result := mergeUserData blockeds privateNotes in
  NoDup (MergedUser.UserID <$> result)
  ∧ (∀ id, id ∈ MergedUser.UserID <$> result
           ↔ id ∈ BlockedRecord.UserID <$> blockeds
             ∨ id ∈ PrivateNoteRecord.MemberID <$> privateNotes)
  ∧ ((∀ id, id ∈ BlockedRecord.UserID <$> blockeds →
            id ∉ PrivateNoteRecord.MemberID <$> privateNotes) →
     length result = (length blockeds + length privateNotes)%nat)
  ∧ (∀ u, u ∈ result ↔
        (∃ b, b ∈ blockeds
              ∧ (BlockedRecord.UserID b ∉ PrivateNoteRecord.MemberID <$> privateNotes)
              ∧ u = blockedOnly b)
        ∨ (∃ n, n ∈ privateNotes
                ∧ (PrivateNoteRecord.MemberID n ∉ BlockedRecord.UserID <$> blockeds)
                ∧ u = noteOnly n)
        ∨ (∃ b n, b ∈ blockeds ∧ n ∈ privateNotes
                  ∧ BlockedRecord.UserID b = PrivateNoteRecord.MemberID n
                  ∧ u = blockedAndNote b n)).
Proof.
  intros Hbs Hns result. subst result.
  assert (NoDup (MergedUser.UserID <$> mergeUserData blockeds privateNotes)) as Hnodup.
  { rewrite mergeUserData_ids. apply NoDup_fst_map_to_list. }
  assert (∀ id, id ∈ MergedUser.UserID <$> mergeUserData blockeds privateNotes
                ↔ id ∈ BlockedRecord.UserID <$> blockeds
                  ∨ id ∈ PrivateNoteRecord.MemberID <$> privateNotes) as Hids.
  { intros id. rewrite mergeUserData_ids, <- mergedMap_dom, list_elem_of_fmap. split.
    - intros ([id' u] & -> & Hin%elem_of_map_to_list). by exists u.
    - intros [u Hu]. exists (id, u). split; [done | by apply elem_of_map_to_list]. }
  split; [done |]. split; [done |]. split.
  - intros Hdisjoint.
    rewrite <- (length_fmap MergedUser.UserID),
            <- (length_fmap BlockedRecord.UserID blockeds),
            <- (length_fmap PrivateNoteRecord.MemberID privateNotes), <- length_app.
    apply Permutation_length, NoDup_Permutation; [done | |].
    + apply NoDup_app. split; [done |]. split; [done | done].
    + intros id. by rewrite Hids, elem_of_app.
  - intros u. rewrite mergeUserData_elem. split.
    + intros (id & Hu). rewrite mergedMap_lookup in Hu.
      destruct (lookupBlocked id blockeds) as [b|] eqn:Hb,
               (lookupNote id privateNotes) as [n|] eqn:Hn; [| | | done];
        injection Hu as <-.
      * apply lookupBlocked_Some in Hb as [? ?]. apply lookupNote_Some in Hn as [? ?].
        right. right. exists b, n. repeat split; [done | done | congruence].
      * apply lookupBlocked_Some in Hb as [? <-]. apply lookupNote_None in Hn.
        left. by exists b.
      * apply lookupNote_Some in Hn as [? <-]. apply lookupBlocked_None in Hb.
        right. left. by exists n.
    + intros [(b & Hb & Hfresh & ->)|[(n & Hn & Hfresh & ->)|(b & n & Hb & Hn & Hid & ->)]].
      * exists (BlockedRecord.UserID b).
        rewrite mergedMap_lookup, (lookupBlocked_NoDup _ _ Hbs Hb).
        by apply lookupNote_None in Hfresh as ->.
      * exists (PrivateNoteRecord.MemberID n).
        rewrite mergedMap_lookup, (lookupNote_NoDup _ _ Hns Hn).
        by apply lookupBlocked_None in Hfresh as ->.
      * exists (BlockedRecord.UserID b).
        rewrite mergedMap_lookup, (lookupBlocked_NoDup _ _ Hbs Hb), Hid.
        by rewrite (lookupNote_NoDup _ _ Hns Hn).
Qed.

Lemma C6_merge_witness :
  let result := mergeUserData mixedBlockeds mixedNotes in
  NoDup (MergedUser.UserID <$> result)
  ∧ length result = 3%nat
  ∧ blockedAndNote (BlockedRecord.mk "222" "2024-01-02" "2024-01-02" "User2")
      (PrivateNoteRecord.mk "222" "2024-01-03" "2024-01-03" "Also has note")
    ∈ result.
Proof.
  destruct (C6_merge mixedBlockeds mixedNotes) as (Hnodup & _ & _ & Hshape).
  - apply (bool_decide_unpack _). vm_compute. exact I.
  - apply (bool_decide_unpack _). vm_compute. exact I.
  - split; [done |]. split; [vm_compute; reflexivity |].
    apply Hshape. right. right. eexists _, _.
    split; [right; left |]. split; [left |]. split; reflexivity.
Defined.

(** ** Synthesis of a page *)

(** C8, on the code. Without a template file [createPageInFolder] succeeds
    and the page has the tag [person], but the built-in template already
    holds the identifier after the URL prefix and the rewrite of the prefix
    adds it once more: for the identifier 99999 the URL of the page ends in
    9999999999. With the template of the tests, whose URL field is empty,
    the same call gives the URL with the identifier once. *)
Theorem C8_default_template_doubles_identifier :
  ReadFile (disk bareWorld) (Join (Join ["vault"] "Templates") "People.md") = Err ENOENT
  ∧ (∃ w' page,
       @createPageInFolder plainYaml sampleSync bareWorld "99999" "" "People" sampleOptions
       = (Ok 0%nat, w')
       ∧ Pages (vault w') = [page]
       ∧ Title page = "user-99999" ∧ Tags page = ["person"]
       ∧ Url page = "https://fetlife.com/users/9999999999"
       ∧ Url page ≠ userURL "99999"
       ∧ files (disk w') !! ["vault"; "People"; "user-99999.md"]
         = Some (unlines ["---"; "tags:"; "  - person";
                          "url: https://fetlife.com/users/9999999999";
                          "---"; ""; "# Notes"]))
  ∧ (∃ w' page,
       @createPageInFolder plainYaml sampleSync templateWorld "99999" "" "People"
                           sampleOptions
       = (Ok 0%nat, w')
       ∧ Pages (vault w') = [page]
       ∧ Url page = userURL "99999").
Proof.
  split; [reflexivity |]. split.
  - eexists _, _. split; [vm_compute; reflexivity |].
    repeat split; try reflexivity. discriminate.
  - eexists _, _. split; [vm_compute; reflexivity |]. by split.
Qed.


Lemma TrimSuffix_app (s suffix : string) : TrimSuffix (s +:+ suffix) suffix = s.
Proof.
  unfold TrimSuffix.
  assert (HasSuffix (s +:+ suffix) suffix = true) as -> by (apply HasSuffix_iff; eauto).
  unfold slice, len. rewrite slength_app, sdrop_0.
  replace (Z.to_nat _) with (String.length s) by lia. apply stake_app.
Qed.

(** A file name without a slash is one path component. *)
Lemma HasPrefix_byte (c d : ascii) (s : string) :
  HasPrefix (String c s) (String d "") = Ascii.eqb c d.
Proof. simpl. destruct (Ascii.eqb c d); [apply HasPrefix_nil | done]. Qed.

Lemma Contains_byte_app (d : ascii) (s t : string) :
  Contains (s +:+ t) (String d "") = Contains s (String d "") || Contains t (String d "").
Proof.
  induction s as [|c s IH]; [done |].
  change (String c s +:+ t) with (String c (s +:+ t)). cbn [Contains].
  by rewrite !HasPrefix_byte, IH, orb_assoc.
Qed.









(** * Further properties of the code *)

(** ** Queries on the vault *)

Example Load_smallDisk :
  ∃ v, @Load plainYaml smallDisk (NewVault ["vault"]) = (None, v)
       ∧ Title <$> Pages v = ["Home"; "Alice"; "Bob"]
       ∧ Folder <$> Pages v = ["."; "People"; "People"]
       ∧ InFolder v "" = [0%nat] ∧ InFolder v "People" = [1; 2]%nat
       ∧ WithTag v "blocked" = [2%nat] ∧ WithTag v "Blocked" = []
       ∧ IsVaultPath smallDisk ["vault"] = true.
Proof. eexists. split; [vm_compute; reflexivity |]. repeat split. Qed.

Lemma positionsFrom_elem (test : Page → bool) (i : nat) (pages : list Page) (j : nat) :
  j ∈ positionsFrom test i pages
  ↔ ∃ k page, j = (i + k)%nat ∧ pages !! k = Some page ∧ test page = true.
Proof.
  revert i. induction pages as [|page rest IH]; intros i; simpl.
  - split; [intros []%elem_of_nil | by intros (k & q & _ & ? & _)].
  - destruct (test page) eqn:E.
    + rewrite elem_of_cons, IH. split.
      * intros [->|(k & q & -> & Hk & Hq)].
        -- exists 0%nat, page. split; [lia | done].
        -- exists (S k), q. split; [lia | done].
      * intros ([|k] & q & -> & Hk & Hq); [left; lia |].
        right. exists k, q. split; [lia | done].
    + rewrite IH. split.
      * intros (k & q & -> & Hk & Hq). exists (S k), q. split; [lia | done].
      * intros ([|k] & q & -> & Hk & Hq).
        -- simpl in Hk. injection Hk as <-. congruence.
        -- exists k, q. split; [lia | done].
Qed.

Lemma positionsFrom_sorted (test : Page → bool) (i : nat) (pages : list Page) :
  StronglySorted lt (positionsFrom test i pages).
Proof.
  revert i. induction pages as [|page rest IH]; intros i; simpl; [constructor |].
  destruct (test page); [| apply IH].
  constructor; [apply IH |]. apply Forall_forall. intros j Hj.
  apply positionsFrom_elem in Hj as (k & _ & -> & _). lia.
Qed.

Lemma inFolderFrom_positions (i : nat) (pages : list Page) (folder : string) :
  inFolderFrom i pages folder
  = positionsFrom (λ page, String.eqb (Folder page) folder) i pages.
Proof.
  revert i. induction pages as [|page rest IH]; intros i; simpl; [done |].
  by rewrite !IH.
Qed.

Lemma tagIn_iff (tags : list string) (tag : string) :
  tagIn tags tag = true ↔ tag ∈ tags.
Proof.
  induction tags as [|t rest IH]; simpl.
  - split; [done | by intros ?%elem_of_nil].
  - destruct (String.eqb_spec t tag) as [->|Hne].
    + split; [intros _; left | done].
    + rewrite IH, elem_of_cons. split; [by right |].
      intros [?|?]; [congruence | done].
Qed.

Lemma withTagFrom_positions (i : nat) (pages : list Page) (tag : string) :
  withTagFrom i pages tag = positionsFrom (λ page, tagIn (Tags page) tag) i pages.
Proof.
  revert i. induction pages as [|page rest IH]; intros i; simpl; [done |].
  by rewrite !IH.
Qed.

(** X1. [InFolder] returns, in the order of the vault and each once, the
    pages whose folder is the given one; the empty folder name stands for
    the root folder ["."]. *)
Theorem X1_InFolder (v : Vault) (folder : string) :
  InFolder v "" = InFolder v "."
  ∧ StronglySorted lt (InFolder v folder)
  ∧ ∀ i, i ∈ InFolder v folder
         ↔ ∃ page, Pages v !! i = Some page
                   ∧ Folder page = (if String.eqb folder "" then "." else folder).
Proof.
  split; [done |]. unfold InFolder. rewrite inFolderFrom_positions.
  split; [apply positionsFrom_sorted |].
  intros i. rewrite positionsFrom_elem. split.
  - intros (k & page & -> & Hk & Hf%String.eqb_eq). by exists page.
  - intros (page & Hi & Hf). exists i, page. split; [done |]. split; [done |].
    by apply String.eqb_eq.
Qed.

(** X2. [WithTag] returns, in the order of the vault, the pages that carry
    the tag, compared byte for byte; a page that carries the tag several
    times is returned once. *)
Theorem X2_WithTag (v : Vault) (tag : string) :
  StronglySorted lt (WithTag v tag)
  ∧ ∀ i, i ∈ WithTag v tag ↔ ∃ page, Pages v !! i = Some page ∧ tag ∈ Tags page.
Proof.
  unfold WithTag. rewrite withTagFrom_positions.
  split; [apply positionsFrom_sorted |].
  intros i. rewrite positionsFrom_elem. split.
  - intros (k & page & -> & Hk & Ht%tagIn_iff). by exists page.
  - intros (page & Hi & Ht). exists i, page. split; [done |]. split; [done |].
    by apply tagIn_iff.
Qed.

(** ** Title and folder of a loaded page *)

Lemma Rel_below (root rest : path) : Rel root (root ++ rest) = rest.
Proof.
  induction root as [|c root IH]; simpl; [by destruct rest |].
  by rewrite String.eqb_refl.
Qed.

Lemma loadPage_fields `{YamlCodec} (fs : FS) (filePath vaultPath : path) (page : Page) :
  loadPage fs filePath vaultPath = Ok page →
  Title page = TrimSuffix (Base filePath) ".md"
  ∧ Folder page = Dir (Rel vaultPath filePath)
  ∧ FilePath page = filePath.
Proof.
  unfold loadPage. destruct (ReadFile fs filePath); [| done].
  unfold parseContent.
  destruct (HasPrefix _ _); [| by intros [= <-]].
  destruct (negb _); [| by intros [= <-]].
  destruct (yamlUnmarshal _) as [metadata|]; [| done].
  intros [= <-]. repeat split.
  unfold extractMetadata. by repeat (destruct (stringOf _); simpl).
Qed.

(** X3. A page loaded from the file [<root>/<dirs>/<name>.md] has the title
    [<name>], without the extension, and as folder the directories between
    the root and the file joined by slashes, ["."] for a file directly
    under the root. Neither comes from the metadata block. *)
Theorem X3_loadPage_title_folder `{YamlCodec} (fs : FS) (root dirs : path)
    (name : string) (page : Page) :
  loadPage fs (root ++ dirs ++ [name +:+ ".md"]) root = Ok page →
  Title page = name
  ∧ Folder page = (match dirs with [] => "." | _ => joinSlash dirs end)
  ∧ FilePath page = root ++ dirs ++ [name +:+ ".md"].
Proof.
  intros (Ht & Hf & Hp)%loadPage_fields.
  split; [| split; [| done]].
  - rewrite Ht. unfold Base. rewrite app_assoc, last_last. apply TrimSuffix_app.
  - rewrite Hf, Rel_below. unfold Dir. rewrite removelast_last. by destruct dirs.
Qed.

Lemma X3_loadPage_title_folder_witness :
  ∃ page, @loadPage plainYaml smallDisk ["vault"; "People"; "Alice.md"] ["vault"] = Ok page
          ∧ Title page = "Alice" ∧ Folder page = "People".
Proof.
  assert (@loadPage plainYaml smallDisk (["vault"] ++ ["People"] ++ ["Alice" +:+ ".md"])
            ["vault"] = Ok alicePage) as Hload by (vm_compute; reflexivity).
  exists alicePage. split; [vm_compute; reflexivity |].
  destruct (@X3_loadPage_title_folder plainYaml smallDisk ["vault"] ["People"] "Alice"
              alicePage Hload) as (Ht & Hf & _).
  split; [exact Ht | exact Hf].
Defined.

(** ** What the metadata block may hold *)

Lemma stringsOf_unusable (key focus : string) (v : node) (m : gmap string node) :
  focus ∈ listKeys → usable key v = false →
  stringsOf (<[key := v]> m !! focus) = stringsOf (delete key m !! focus).
Proof.
  intros Hfocus Hv. destruct (decide (key = focus)) as [->|Hne].
  - rewrite lookup_insert_eq, lookup_delete_eq.
    destruct v; simpl in *; try done.
    by rewrite bool_decide_eq_false in Hv.
  - by rewrite lookup_insert_ne, lookup_delete_ne.
Qed.

Lemma stringOf_unusable (key focus : string) (v : node) (m : gmap string node) :
  focus ∈ scalarKeys → usable key v = false →
  stringOf (<[key := v]> m !! focus) = stringOf (delete key m !! focus).
Proof.
  intros Hfocus Hv. destruct (decide (key = focus)) as [->|Hne].
  - rewrite lookup_insert_eq, lookup_delete_eq.
    destruct v; simpl in *; try done.
    by rewrite bool_decide_eq_false in Hv.
  - by rewrite lookup_insert_ne, lookup_delete_ne.
Qed.

(** X4. A metadata entry that [loadPage] cannot use is the same as no
    entry: a key that is none of the six, a list key with a value that is
    no list, a scalar key with a value that is no string. None of them is
    an error. *)
Theorem X4_unusable_metadata (key : string) (v : node) (m : gmap string node)
    (page : Page) :
  usable key v = false →
  extractMetadata (<[key := v]> m) page = extractMetadata (delete key m) page.
Proof.
  intros Hv. unfold extractMetadata.
  rewrite !(stringsOf_unusable key _ v m) by (done || (unfold listKeys; set_solver)).
  rewrite !(stringOf_unusable key _ v m) by (done || (unfold scalarKeys; set_solver)).
  done.
Qed.

Lemma X4_unusable_metadata_witness :
  extractMetadata (<["tags" := NString "friend"]> {[ "url" := NString "u" ]})
                  (newPage [])
  = extractMetadata (delete "tags" {[ "url" := NString "u" ]}) (newPage [])
  ∧ extractMetadata (<["rating" := NSeq [NString "5"]]> {[ "url" := NString "u" ]})
                    (newPage [])
    = extractMetadata (delete "rating" {[ "url" := NString "u" ]}) (newPage []).
Proof.
  split.
  - apply (X4_unusable_metadata "tags" (NString "friend")). reflexivity.
  - apply (X4_unusable_metadata "rating" (NSeq [NString "5"])). reflexivity.
Defined.

(** ** Round trips of pages with empty fields *)

Lemma buildMetadata_fieldOf (page : Page) (key : string) :
  key ∈ sourceOrder → buildMetadata page !! key = fieldOf page key.
Proof.
  intros Hkey.
  destruct page as [title folder tags aliases url urlAliases color message fp body].
  unfold sourceOrder in Hkey.
  repeat (apply elem_of_cons in Hkey as [->|Hkey]); [.. | by apply elem_of_nil in Hkey];
    destruct tags, aliases, url, urlAliases, color, message; reflexivity.
Qed.

Lemma stringsOf_decoded_field (l : list string) :
  stringsOf (decodeField <$> match l with [] => None | _ => Some (FStrings l) end) = l.
Proof. destruct l; [done |]. apply stringsOf_decoded. Qed.

(** Whatever fields are set, [loadPage] reads from the decoded metadata
    what [Save] put into the map, and reads the fields that were left out
    as empty. *)
Lemma extract_decoded_any (page : Page) (fp : path) (body : string) :
  let q := extractMetadata (decodeField <$> buildMetadata page)
                           (setContent body (newPage fp)) in
  Tags q = Tags page ∧ Aliases q = Aliases page ∧ Url q = Url page
  ∧ UrlAliases q = UrlAliases page ∧ WebBadgeColor q = WebBadgeColor page
  ∧ WebMessage q = WebMessage page ∧ Content q = body.
Proof.
  unfold extractMetadata. rewrite !lookup_fmap.
  rewrite !buildMetadata_fieldOf by (unfold sourceOrder; set_solver).
  unfold fieldOf. simpl String.eqb. cbn iota.
  rewrite !stringsOf_decoded_field.
  destruct page as [title folder tags aliases url urlAliases color message fp' body'].
  cbn [Tags Aliases Url UrlAliases WebBadgeColor WebMessage].
  by destruct url, color, message.
Qed.

(** X5. A page without any metadata is saved as its body alone, without a
    metadata block; when the body does not itself start with the delimiter
    line, the page that is read back has the same body and no metadata. *)
Theorem X5_round_trip_without_metadata `{YamlCodec} (page : Page) :
  zeroMetadata page →
  HasPrefix (Content page) delim = false →
  serialize page = Content page
  ∧ ∃ q, parseContent (serialize page) (newPage (FilePath page)) = Ok q
         ∧ sameDocument q page.
Proof.
  intros (Ht & Ha & Hu & Hua & Hc & Hm) Hbody.
  assert (serialize page = Content page) as Hser.
  { rewrite serialize_frontMatter.
    destruct page as [title folder tags aliases url urlAliases color message fp body].
    simpl in *. by subst. }
  split; [done |]. rewrite Hser. unfold parseContent. rewrite Hbody.
  eexists. split; [reflexivity |]. by repeat split.
Qed.

Lemma X5_round_trip_without_metadata_witness :
  @serialize plainYaml bodyOnlyDoc = Content bodyOnlyDoc
  ∧ ∃ q, @parseContent plainYaml (@serialize plainYaml bodyOnlyDoc)
           (newPage (FilePath bodyOnlyDoc)) = Ok q
         ∧ sameDocument q bodyOnlyDoc.
Proof.
  apply (@X5_round_trip_without_metadata plainYaml bodyOnlyDoc).
  - by repeat split.
  - reflexivity.
Defined.

(** X6. The round trip holds for every page that has some metadata, not
    only for pages with all six fields: when the encoded block holds no
    delimiter text and the codec decodes what it encoded, the page that is
    read back has the same fields and body, and a field that was empty when
    the page was saved is empty again. The same holds through the file:
    after a successful [Save], [loadPage] on the file of the page gives
    the fields and the body back. *)
Theorem X6_round_trip_some_metadata `{YamlCodec} (page : Page) :
  presentEntries writtenOrder page ≠ [] →
  Contains (yamlMarshal (buildMetadata page)) delim = false →
  yamlUnmarshal (yamlMarshal (buildMetadata page))
    = Some (decodeField <$> buildMetadata page) →
  (∃ q, parseContent (serialize page) (newPage (FilePath page)) = Ok q
        ∧ sameDocument q page)
  ∧ (∀ fs fs' vaultPath, Save page fs = Ok fs' →
       ∃ q, loadPage fs' (FilePath page) vaultPath = Ok q ∧ sameDocument q page).
Proof.
  intros Hsome Hfree Hcodec.
  assert (∃ q, parseContent (serialize page) (newPage (FilePath page)) = Ok q
               ∧ sameDocument q page) as Hparse.
  { assert (serialize page
            = delim +:+ yamlMarshal (buildMetadata page) +:+ delim +:+ Content page) as ->.
    { rewrite serialize_frontMatter. unfold yamlMarshal, frontMatter.
      rewrite sortedEntries_buildMetadata.
      destruct (presentEntries writtenOrder page); [done |]. by rewrite !sapp_assoc. }
    rewrite (parseContent_framed _ _ _ Hfree), Hcodec.
    eexists. split; [reflexivity |].
    destruct (extract_decoded_any page (FilePath page) (Content page))
      as (? & ? & ? & ? & ? & ? & ?).
    by repeat split. }
  split; [done |].
  intros fs fs' vaultPath Hsave. destruct Hparse as (q & Hq & Hsame).
  unfold loadPage. rewrite (ReadFile_after_Save _ _ _ Hsave), Hq.
  eexists. split; [reflexivity |]. by destruct Hsame as (? & ? & ? & ? & ? & ? & ?).
Qed.

Lemma X6_round_trip_some_metadata_witness :
  (∃ q, @parseContent plainYaml (@serialize plainYaml sparseDoc)
          (newPage (FilePath sparseDoc)) = Ok q
        ∧ sameDocument q sparseDoc)
  ∧ (∀ fs fs' vaultPath, @Save plainYaml sparseDoc fs = Ok fs' →
       ∃ q, @loadPage plainYaml fs' (FilePath sparseDoc) vaultPath = Ok q
            ∧ sameDocument q sparseDoc).
Proof.
  apply (@X6_round_trip_some_metadata plainYaml sparseDoc).
  - discriminate.
  - vm_compute. reflexivity.
  - vm_compute. reflexivity.
Defined.

(** ** When loading fails *)

Lemma HasPrefix_stake (s sub : string) (n : nat) :
  HasPrefix (stake n s) sub = true → HasPrefix s sub = true.
Proof.
  intros [t Ht]%HasPrefix_inv. apply HasPrefix_iff.
  exists (t +:+ sdrop n s). by rewrite <- sapp_assoc, <- Ht, stake_sdrop.
Qed.

(** Before the position [Index] returns there is no occurrence. *)
Lemma Index_first (s sub : string) :
  sub ≠ "" → Index s sub ≠ -1 →
  Contains (stake (Z.to_nat (Index s sub)) s) sub = false.
Proof.
  intros Hsub. induction s as [|c s IH]; cbn [Index].
  - destruct (HasPrefix "" sub); [| done]. intros _. by destruct sub.
  - destruct (HasPrefix (String c s) sub) eqn:Hp.
    + intros _. by destruct sub.
    + pose proof (Index_range s sub).
      destruct (Z.eqb_spec (Index s sub) (-1)) as [E|E]; [done |]. intros _.
      replace (Z.to_nat (Index s sub + 1)) with (S (Z.to_nat (Index s sub))) by lia.
      cbn [stake Contains]. rewrite (IH E), orb_false_r.
      destruct (HasPrefix (String c (stake _ s)) sub) eqn:Hp'; [| done].
      apply (HasPrefix_stake (String c s) sub (S (Z.to_nat (Index s sub)))) in Hp'.
      congruence.
Qed.

Lemma parseContent_Err `{YamlCodec} (content : string) (page0 : Page) (e : error) :
  parseContent content page0 = Err e
  ↔ e = EYAML ∧ ∃ y body, content = delim +:+ y +:+ delim +:+ body
                          ∧ Contains y delim = false ∧ yamlUnmarshal y = None.
Proof.
  split.
  - unfold parseContent. destruct (HasPrefix content delim) eqn:Hp; [| done].
    apply HasPrefix_inv in Hp as [rest ->].
    change (sliceFrom (delim +:+ rest) 4) with rest.
    destruct (Z.eqb_spec (Index rest delim) (-1)) as [E|E]; [done |]. cbn [negb].
    destruct (Index_cut rest delim E) as [post Hcut].
    pose proof (Index_first rest delim ltac:(done) E) as Hfirst.
    pose proof (Index_range rest delim).
    set (y := stake (Z.to_nat (Index rest delim)) rest) in *.
    assert (slice (delim +:+ rest) 4 (Index rest delim + 4) = y) as ->.
    { unfold slice. replace (Z.to_nat (Index rest delim + 4 - 4))
        with (Z.to_nat (Index rest delim)) by lia. done. }
    destruct (yamlUnmarshal y) eqn:Hy; [done |]. intros [= <-].
    split; [done |]. exists y, post. by rewrite <- Hcut.
  - intros (-> & y & body & -> & Hfree & Hy).
    by rewrite (parseContent_framed _ _ _ Hfree), Hy.
Qed.

(** X7. [loadPage] fails in two cases only: the file cannot be read, or
    its content has a metadata block between two delimiters and the YAML
    decoder rejects the text of that block. A file without a metadata
    block, or with a block that is never closed, always loads. *)
Theorem X7_loadPage_errors `{YamlCodec} (fs : FS) (filePath vaultPath : path) (e : error) :
  loadPage fs filePath vaultPath = Err e
  ↔ ReadFile fs filePath = Err e
    ∨ (e = EYAML
       ∧ ∃ y body, ReadFile fs filePath = Ok (delim +:+ y +:+ delim +:+ body)
                   ∧ Contains y delim = false ∧ yamlUnmarshal y = None).
Proof.
  unfold loadPage. destruct (ReadFile fs filePath) as [content|e'].
  - destruct (parseContent content (newPage filePath)) as [page|e'] eqn:Hparse.
    + split; [done |]. intros [?|(-> & y & body & Hread & Hfree & Hy)]; [done |].
      assert (content = delim +:+ y +:+ delim +:+ body) as -> by congruence.
      assert (parseContent (delim +:+ y +:+ delim +:+ body) (newPage filePath)
              = Err EYAML) as Hbad
        by (apply parseContent_Err; split; [done |]; by exists y, body).
      congruence.
    + split.
      * intros [= <-]. right. apply parseContent_Err in Hparse
          as (-> & y & body & -> & ? & ?). split; [done |]. by exists y, body.
      * intros [?|(-> & _)]; [done |].
        apply parseContent_Err in Hparse as (-> & _). done.
  - split; [intros [= <-]; by left |]. by intros [[= <-]|(_ & ? & ? & ? & _)].
Qed.

(** ** Loading the vault *)

Lemma walkLoad_spec `{YamlCodec} (fs : FS) (root : path) (paths : list path)
    (pages : list Page) :
  ∃ new, (walkLoad fs root paths pages).2 = pages ++ new
         ∧ match (walkLoad fs root paths pages).1 with
           | None => loadedFrom fs root paths new
           | Some e => ∃ before p after,
               filter isMarkdown paths = before ++ p :: after
               ∧ Forall2 (λ p page, loadPage fs p root = Ok page) before new
               ∧ loadPage fs p root = Err e
           end.
Proof.
  unfold loadedFrom. revert pages.
  induction paths as [|p rest IH]; intros pages; cbn [walkLoad].
  - exists []. split; [by rewrite app_nil_r | constructor].
  - rewrite filter_cons. destruct (HasSuffix (pathText p) ".md") eqn:Hmd; cbn [negb].
    + rewrite decide_True by done.
      destruct (loadPage fs p root) as [page|e] eqn:Hload.
      * destruct (IH (pages ++ [page])) as (new & Hnew & Hrest).
        exists (page :: new). split; [by rewrite Hnew, <- app_assoc |].
        destruct (walkLoad fs root rest (pages ++ [page])).1 as [e|].
        -- destruct Hrest as (before & q & after & Hf & Hb & Hq).
           exists (p :: before), q, after. rewrite Hf. split; [done |].
           split; [by constructor | done].
        -- by constructor.
      * exists []. split; [by rewrite app_nil_r |].
        exists [], p, (filter isMarkdown rest). split; [done |]. split; [constructor | done].
    + rewrite decide_False by (unfold isMarkdown; congruence). apply IH.
Qed.

Lemma Forall2_loaded_paths `{YamlCodec} (fs : FS) (root : path)
    (paths : list path) (pages : list Page) :
  Forall2 (λ p page, loadPage fs p root = Ok page) paths pages →
  FilePath <$> pages = paths.
Proof.
  induction 1 as [|p page paths pages Hload _ IH]; [done |].
  apply loadPage_fields in Hload as (_ & _ & Hp). csimpl. by rewrite Hp, IH.
Qed.

Lemma elem_of_walkFiles (fs : FS) (root p : path) :
  p ∈ walkFiles fs root ↔ is_Some (files fs !! p) ∧ below fs root p = true.
Proof.
  unfold walkFiles. rewrite merge_sort_Permutation, list_elem_of_filter, list_elem_of_fmap.
  split.
  - intros (Hb & [p' content] & -> & Hin%elem_of_map_to_list). split; [by eexists | done].
  - intros ([content Hc] & Hb). split; [done |]. exists (p, content).
    split; [done | by apply elem_of_map_to_list].
Qed.

(** X8. When the root is a directory and [Load] succeeds, it has appended
    to the pages of the vault one page per markdown file below the root,
    in the order of the walk, each the result of [loadPage] on that file;
    the pages that were in the vault before stay in front. Files that do
    not end in [.md] give no page. *)
Theorem X8_Load_pages `{YamlCodec} (fs : FS) (v v' : Vault) :
  isDir fs (Path v) = true →
  Load fs v = (None, v') →
  Path v' = Path v
  ∧ ∃ new, Pages v' = Pages v ++ new
           ∧ loadedFrom fs (Path v) (walkFiles fs (Path v)) new
           ∧ ∀ p, p ∈ FilePath <$> new
                  ↔ is_Some (files fs !! p) ∧ below fs (Path v) p = true ∧ isMarkdown p.
Proof.
  intros Hdir. unfold Load. rewrite Hdir.
  pose proof (walkLoad_spec fs (Path v) (walkFiles fs (Path v)) (Pages v))
    as (new & Hnew & Hspec).
  destruct (walkLoad fs (Path v) (walkFiles fs (Path v)) (Pages v)) as [e pages].
  simpl in *. intros [= -> <-]. split; [done |]. exists new. split; [done |].
  split; [done |]. intros p.
  rewrite (Forall2_loaded_paths _ _ _ _ Hspec), list_elem_of_filter, elem_of_walkFiles.
  tauto.
Qed.

Lemma X8_Load_pages_witness :
  ∃ v', @Load plainYaml smallDisk (NewVault ["vault"]) = (None, v')
        ∧ FilePath <$> Pages v'
          = [["vault"; "Home.md"]; ["vault"; "People"; "Alice.md"];
             ["vault"; "People"; "Bob.md"]]
        ∧ ["vault"; "notes.txt"] ∉ FilePath <$> Pages v'.
Proof.
  destruct (@Load plainYaml smallDisk (NewVault ["vault"])) as [e v'] eqn:Hload.
  assert (e = None) as -> by (apply (f_equal fst) in Hload; vm_compute in Hload; congruence).
  exists v'. split; [done |].
  destruct (@X8_Load_pages plainYaml smallDisk (NewVault ["vault"]) v' eq_refl Hload)
    as (_ & new & Hpages & _ & Hmem).
  simpl in Hpages. subst new.
  split.
  - apply (f_equal snd) in Hload. vm_compute in Hload. by subst v'.
  - intros (_ & _ & Hmd)%Hmem. discriminate Hmd.
Defined.



(** ** What the record processors keep *)

Lemma createPageInFolder_pages `{YamlCodec} (sync : SyncCmd) (w w' : World)
    (userID nickname folder : string) (options : Options) (r : result nat) :
  createPageInFolder sync w userID nickname folder options = (r, w') →
  Path (vault w') = Path (vault w)
  ∧ match r with
    | Ok ptr => ptr = length (Pages (vault w))
                ∧ ∃ page, Pages (vault w') = Pages (vault w) ++ [page]
    | Err _ => Pages (vault w') = Pages (vault w)
    end.
Proof.
  unfold createPageInFolder.
  destruct (MkdirAll _ _) as [fs1|]; [| by intros [= <- <-]]. simpl.
  destruct (WriteFile _ _ _) as [fs2|]; [| by intros [= <- <-]]. simpl.
  destruct (LoadPage _ _ _) as [page|]; [| by intros [= <- <-]].
  intros [= <- <-]. simpl. split; [done |]. split; [done | by exists page].
Qed.

Lemma updateAndSave_pages `{YamlCodec} (update : Page → Page) (ptr : nat) (w : World) :
  Path (vault (updateAndSave update ptr w).2) = Path (vault w)
  ∧ Pages (vault (updateAndSave update ptr w).2)
    = <[ptr := update (Pages (vault w) !!! ptr)]> (Pages (vault w)).
Proof. unfold updateAndSave. by destruct (Save _ _). Qed.

Lemma found_processed `{YamlCodec} (update : Page → Page) (w w1 : World)
    (ptrs : list nat) (created : result nat) (userID : string) :
  ptrs = findFrom 0 (Pages (vault w)) userID →
  (1 <? Z.of_nat (length ptrs)) = false →
  (Z.of_nat (length ptrs) =? 0) = false ∨
    (Path (vault w1) = Path (vault w)
     ∧ match created with
       | Ok ptr => ptr = length (Pages (vault w))
                   ∧ ∃ page, Pages (vault w1) = Pages (vault w) ++ [page]
       | Err _ => Pages (vault w1) = Pages (vault w)
       end) →
  processed update (vault w)
    (vault (match (if Z.of_nat (length ptrs) =? 0 then (created, w1)
                   else (Ok (ptrs !!! 0%nat), w)) with
            | (Err e, w2) => (Some e, w2)
            | (Ok ptr, w2) => updateAndSave update ptr w2
            end).2).
Proof.
  intros Hptrs Hmany Hcreated.
  destruct (Z.eqb_spec (Z.of_nat (length ptrs)) 0) as [Hzero|Hnonzero].
  - destruct Hcreated as [|[Hpath Hcreated]]; [done |].
    destruct created as [ptr|e]; simpl.
    + destruct Hcreated as (-> & page & Hpages).
      destruct (updateAndSave_pages update (length (Pages (vault w))) w1) as [Hp Hu].
      apply (processed_created _ _ _ page); [congruence |].
      rewrite Hu, Hpages.
      rewrite list_lookup_total_middle by done.
      replace (length (Pages (vault w))) with (length (Pages (vault w)) + 0)%nat at 1 by lia.
      by rewrite insert_app_r.
    + apply processed_same. destruct (vault w1), (vault w); simpl in *. congruence.
  - destruct ptrs as [|ptr [|? ?]];
      [done | | apply Z.ltb_ge in Hmany; simpl length in Hmany; lia]. simpl.
    assert (ptr ∈ findFrom 0 (Pages (vault w)) userID) as Hin
      by (rewrite <- Hptrs; left).
    apply findFrom_elem in Hin as (k & page & -> & Hk & _). simpl in *.
    destruct (updateAndSave_pages update k w) as [Hp Hu].
    apply (processed_updated _ _ _ k page); [done | done |].
    by rewrite Hu, (list_lookup_total_correct _ _ _ Hk).
Qed.

Lemma processBlocked_processed `{YamlCodec} (sync : SyncCmd) (w : World)
    (blocked : BlockedRecord.t) (options : Options) :
  processed (blockedUpdate blocked) (vault w)
            (vault (processBlocked sync w blocked options).2).
Proof.
  unfold processBlocked, findPageByUserID.
  set (ptrs := findFrom 0 (Pages (vault w)) (BlockedRecord.UserID blocked)).
  destruct (1 <? Z.of_nat (length ptrs)) eqn:Hmany; [by apply processed_same |].
  destruct (createPageInFolder sync w (BlockedRecord.UserID blocked)
              (BlockedRecord.Nickname blocked) (CreateBlockedIn sync) options)
    as [created w1] eqn:Hcreate.
  apply (found_processed _ w w1 ptrs created (BlockedRecord.UserID blocked));
    [done | done |].
  right. by apply createPageInFolder_pages in Hcreate.
Qed.

Lemma processPrivateNote_processed `{YamlCodec} `{Unicode} (sync : SyncCmd) (w : World)
    (note : PrivateNoteRecord.t) (options : Options) :
  processed (setWebMessage (PrivateNoteRecord.PrivateNote note)) (vault w)
            (vault (processPrivateNote sync w note options).2).
Proof.
  unfold processPrivateNote, findPageByUserID, createPageFromTemplateWithNote.
  set (ptrs := findFrom 0 (Pages (vault w)) (PrivateNoteRecord.MemberID note)).
  destruct (1 <? Z.of_nat (length ptrs)) eqn:Hmany; [by apply processed_same |].
  destruct (createPageInFolder sync w (PrivateNoteRecord.MemberID note) ""
              (determineFolderForUser sync (PrivateNoteRecord.MemberID note)
                 (PrivateNoteRecord.PrivateNote note)) options)
    as [created w1] eqn:Hcreate.
  apply (found_processed _ w w1 ptrs created (PrivateNoteRecord.MemberID note));
    [done | done |].
  right. by apply createPageInFolder_pages in Hcreate.
Qed.

Lemma processed_keeps (update : Page → Page) (R : Page → Page → Prop) (v v' : Vault) :
  (∀ p, R p p) → (∀ p, R p (update p)) →
  processed update v v' →
  Path v' = Path v
  ∧ (length (Pages v) ≤ length (Pages v') ≤ S (length (Pages v)))%nat
  ∧ ∀ i page, Pages v !! i = Some page →
              ∃ page', Pages v' !! i = Some page' ∧ R page page'.
Proof.
  intros Hrefl Hupd [->|page Hpath Hpages|ptr page Hpath Hptr Hpages].
  - split; [done |]. split; [lia |]. intros i page Hi. by exists page.
  - split; [done |]. rewrite Hpages, length_app. simpl. split; [lia |].
    intros i q Hi. exists q. split; [| done].
    by rewrite lookup_app_l by by eapply lookup_lt_Some.
  - split; [done |]. rewrite Hpages, length_insert. split; [lia |].
    intros i q Hi. destruct (decide (i = ptr)) as [->|Hne].
    + exists (update page). rewrite list_lookup_insert_eq by by eapply lookup_lt_Some.
      split; [done |]. replace q with page by congruence. apply Hupd.
    + exists q. by rewrite list_lookup_insert_ne.
Qed.

Lemma blockedUpdate_keeps (blocked : BlockedRecord.t) (page : Page) :
  sameIdentity page (blockedUpdate blocked page)
  ∧ Tags page `prefix_of` Tags (blockedUpdate blocked page)
  ∧ (WebMessage page ≠ "" → WebMessage (blockedUpdate blocked page) = WebMessage page).
Proof.
  destruct page as [title folder tags aliases url urlAliases color message fp body].
  unfold blockedUpdate. simpl.
  destruct (hasBlockedTag tags), message; simpl;
    (split; [by repeat split |]); (split; [| done]);
    first [done | by exists ["blocked"]].
Qed.

(** X10. Whatever a blocked record leads to, the pages that were in the
    vault stay at their places: none is removed or moved, at most one page
    is appended, and a page that was there keeps everything but its tags
    and its message; its tags stay at the front of the new tags, and a
    message that was not empty stays as it was. *)
Theorem X10_processBlocked_keeps `{YamlCodec} (sync : SyncCmd) (w : World)
    (blocked : BlockedRecord.t) (options : Options) :
  let w' := (processBlocked sync w blocked options).2 in
  Path (vault w') = Path (vault w)
  ∧ (length (Pages (vault w)) ≤ length (Pages (vault w'))
     ≤ S (length (Pages (vault w))))%nat
  ∧ ∀ i page, Pages (vault w) !! i = Some page →
      ∃ page', Pages (vault w') !! i = Some page'
               ∧ sameIdentity page page'
               ∧ Tags page `prefix_of` Tags page'
               ∧ (WebMessage page ≠ "" → WebMessage page' = WebMessage page).
Proof.
  apply (processed_keeps (blockedUpdate blocked)
           (λ p q, sameIdentity p q ∧ Tags p `prefix_of` Tags q
                   ∧ (WebMessage p ≠ "" → WebMessage q = WebMessage p))).
  - intros p. by repeat split.
  - apply blockedUpdate_keeps.
  - apply processBlocked_processed.
Qed.

(** X11. Whatever a note record leads to, the pages that were in the vault
    stay at their places, at most one page is appended, and a page that
    was there keeps everything but its message, which is as before or is
    the text of the note. *)
Theorem X11_processPrivateNote_keeps `{YamlCodec} `{Unicode} (sync : SyncCmd) (w : World)
    (note : PrivateNoteRecord.t) (options : Options) :
  let w' := (processPrivateNote sync w note options).2 in
  Path (vault w') = Path (vault w)
  ∧ (length (Pages (vault w)) ≤ length (Pages (vault w'))
     ≤ S (length (Pages (vault w))))%nat
  ∧ ∀ i page, Pages (vault w) !! i = Some page →
      ∃ page', Pages (vault w') !! i = Some page'
               ∧ sameIdentity page page' ∧ Tags page' = Tags page
               ∧ (WebMessage page' = WebMessage page
                  ∨ WebMessage page' = PrivateNoteRecord.PrivateNote note).
Proof.
  apply (processed_keeps (setWebMessage (PrivateNoteRecord.PrivateNote note))
           (λ p q, sameIdentity p q ∧ Tags q = Tags p
                   ∧ (WebMessage q = WebMessage p
                      ∨ WebMessage q = PrivateNoteRecord.PrivateNote note))).
  - intros p. split; [by repeat split |]. split; [done | by left].
  - intros p. split; [by repeat split |]. split; [done | by right].
  - apply processPrivateNote_processed.
Qed.

(** X12. Processing a record never changes which of the existing pages an
    identifier matches: the processors leave the URL and the URL aliases
    of every page alone. *)
Theorem X12_matching_stable `{YamlCodec} `{Unicode} (sync : SyncCmd) (w : World)
    (blocked : BlockedRecord.t) (note : PrivateNoteRecord.t) (options : Options)
    (userID : string) (i : nat) :
  (i < length (Pages (vault w)))%nat →
  (i ∈ findFrom 0 (Pages (vault (processBlocked sync w blocked options).2)) userID
   ↔ i ∈ findFrom 0 (Pages (vault w)) userID)
  ∧ (i ∈ findFrom 0 (Pages (vault (processPrivateNote sync w note options).2)) userID
     ↔ i ∈ findFrom 0 (Pages (vault w)) userID).
Proof.
  intros Hi.
  assert (∀ update v', (∀ p, sameUrls p (update p)) →
            processed update (vault w) v' →
            (i ∈ findFrom 0 (Pages v') userID ↔ i ∈ findFrom 0 (Pages (vault w)) userID))
    as Hstable.
  { intros update v' Hupd Hproc.
    destruct (processed_keeps update sameUrls _ _ ltac:(done) Hupd Hproc)
      as (_ & _ & Hkeep).
    destruct (lookup_lt_is_Some_2 _ _ Hi) as [page Hpage].
    destruct (Hkeep i page Hpage) as (page' & Hpage' & Hu & Ha).
    rewrite !findFrom_elem. unfold pageMatches. split.
    - intros (k & q & -> & Hk & Hm). exists k, page. split; [done |]. split; [done |].
      simpl in *. replace q with page' in Hm by congruence. by rewrite Hu, Ha.
    - intros (k & q & -> & Hk & Hm). exists k, page'. split; [done |]. split; [done |].
      simpl in *. replace q with page in Hm by congruence. by rewrite <- Hu, <- Ha. }
  split.
  - apply (Hstable (blockedUpdate blocked)); [| apply processBlocked_processed].
    intros p. by destruct (blockedUpdate_keeps blocked p) as ((_ & _ & _ & ? & ? & _) & _).
  - by apply (Hstable (setWebMessage (PrivateNoteRecord.PrivateNote note)));
      [| apply processPrivateNote_processed].
Qed.

Lemma X12_matching_stable_witness :
  (0%nat ∈ findFrom 0 (Pages (vault (@processBlocked plainYaml sampleSync aliceWorld
                                       sampleBlocked sampleOptions).2)) "12345"
   ↔ 0%nat ∈ findFrom 0 (Pages (vault aliceWorld)) "12345")
  ∧ (0%nat ∈ findFrom 0 (Pages (vault (@processPrivateNote plainYaml asciiText sampleSync aliceWorld
                                         sampleNote sampleOptions).2)) "12345"
     ↔ 0%nat ∈ findFrom 0 (Pages (vault aliceWorld)) "12345").
Proof.
  apply (@X12_matching_stable plainYaml asciiText sampleSync aliceWorld sampleBlocked sampleNote
           sampleOptions "12345" 0%nat).
  simpl. lia.
Defined.

(** ** A user who is blocked and has a note *)





(** With exactly one match the processors update that page in place. *)
Lemma processBlocked_single `{YamlCodec} (sync : SyncCmd) (w : World)
    (blocked : BlockedRecord.t) (options : Options) (ptr : nat) :
  findFrom 0 (Pages (vault w)) (BlockedRecord.UserID blocked) = [ptr] →
  processBlocked sync w blocked options = updateAndSave (blockedUpdate blocked) ptr w.
Proof. unfold processBlocked, findPageByUserID. by intros ->. Qed.




(** ** What reaches the disk *)

Lemma WriteFile_footprint (fs fs' : FS) (p : path) (data : string) :
  WriteFile fs p data = Ok fs' →
  dirs fs' = dirs fs ∧ files fs' !! p = Some data
  ∧ ∀ q, q ≠ p → files fs' !! q = files fs !! q.
Proof.
  unfold WriteFile. destruct (isDir fs p); [done |].
  destruct (isDir fs (removelast p)); [| done]. intros [= <-]. simpl.
  split; [done |]. split; [apply lookup_insert_eq |].
  intros q Hq. by apply lookup_insert_ne.
Qed.

Lemma updateAndSave_disk `{YamlCodec} (update : Page → Page) (ptr : nat) (w : World) :
  let page' := update (Pages (vault w) !!! ptr) in
  let r := updateAndSave update ptr w in
  dirs (disk r.2) = dirs (disk w)
  ∧ (∀ q, q ≠ FilePath page' → files (disk r.2) !! q = files (disk w) !! q)
  ∧ (r.1 = None → files (disk r.2) !! FilePath page' = Some (serialize page'))
  ∧ (r.1 ≠ None → disk r.2 = disk w).
Proof.
  intros page' r. subst r. unfold updateAndSave. fold page'. unfold Save.
  destruct (WriteFile _ _ _) as [fs'|e] eqn:Hw; simpl.
  - apply WriteFile_footprint in Hw as (Hd & Hf & Ho). by repeat split.
  - by repeat split.
Qed.

(** X14. A record that matches exactly one page touches one file at most,
    the file of that page: no directory is made, every other file keeps
    its content. When the processor returns no error, the file holds the
    serialisation of the page as it now is in the vault; when it returns an
    error, the disk is as before. *)
Theorem X14_single_match_disk `{YamlCodec} (sync : SyncCmd) (w : World)
    (blocked : BlockedRecord.t) (options : Options) (ptr : nat) :
  findPageByUserID (vault w) (BlockedRecord.UserID blocked) = Ok [ptr] →
  let r := processBlocked sync w blocked options in
  let file := FilePath (Pages (vault w) !!! ptr) in
  dirs (disk r.2) = dirs (disk w)
  ∧ (∀ q, q ≠ file → files (disk r.2) !! q = files (disk w) !! q)
  ∧ (r.1 = None →
     files (disk r.2) !! file = Some (serialize (Pages (vault r.2) !!! ptr)))
  ∧ (r.1 ≠ None → disk r.2 = disk w).
Proof.
  intros [= Hfind] r file. subst r.
  rewrite (processBlocked_single _ _ _ _ _ Hfind).
  destruct (updateAndSave_disk (blockedUpdate blocked) ptr w) as (Hd & Ho & Hok & Herr).
  assert (FilePath (blockedUpdate blocked (Pages (vault w) !!! ptr)) = file) as Hfile.
  { by destruct (blockedUpdate_keeps blocked (Pages (vault w) !!! ptr))
      as ((_ & _ & _ & _ & _ & _ & <- & _) & _). }
  rewrite Hfile in *. split; [done |]. split; [done |]. split; [| done].
  intros Hnone. rewrite (Hok Hnone). f_equal. f_equal.
  destruct (updateAndSave_pages (blockedUpdate blocked) ptr w) as [_ ->].
  assert (ptr < length (Pages (vault w)))%nat.
  { assert (ptr ∈ findFrom 0 (Pages (vault w)) (BlockedRecord.UserID blocked)) as Hin
      by (rewrite Hfind; left).
    apply findFrom_elem in Hin as (k & page & -> & Hk%lookup_lt_Some & _). lia. }
  by rewrite list_lookup_total_insert_eq.
Qed.

Lemma X14_single_match_disk_witness :
  let r := @processBlocked plainYaml sampleSync aliceWorld sampleBlocked sampleOptions in
  r.1 = None
  ∧ dirs (disk r.2) = dirs (disk aliceWorld)
  ∧ files (disk r.2) !! ["vault"; "People"; "Alice.md"]
    = Some (@serialize plainYaml (Pages (vault r.2) !!! 0%nat)).
Proof.
  destruct (@X14_single_match_disk plainYaml sampleSync aliceWorld sampleBlocked
              sampleOptions 0%nat eq_refl) as (Hd & _ & Hok & _).
  assert ((@processBlocked plainYaml sampleSync aliceWorld sampleBlocked sampleOptions).1
          = None) as Hnone by (vm_compute; reflexivity).
  split; [exact Hnone |]. split; [exact Hd | exact (Hok Hnone)].
Defined.

(** ** The page [createPageInFolder] makes *)

Lemma slength_md (s : string) : (3 ≤ String.length (s +:+ ".md"))%nat.
Proof. rewrite slength_app. simpl. lia. Qed.







Lemma MkdirAll_footprint (fs fs' : FS) (p : path) :
  MkdirAll fs p = Ok fs' →
  files fs' = files fs
  ∧ dirs fs' = dirs fs ∪ list_to_set (ancestors p)
  ∧ ∀ q, q ∈ ancestors p → files fs !! q = None.
Proof.
  unfold MkdirAll. case_bool_decide as Hex; [done |]. intros [= <-]. simpl.
  split; [done |]. split; [done |]. intros q Hq.
  destruct (files fs !! q) eqn:Hfile; [| done].
  destruct Hex. apply Exists_exists. exists q. split; [done | by eexists].
Qed.

(** X16. Whatever its outcome, [createPageInFolder] leaves every file but
    the file of the new page as it was, removes no directory, and changes
    the pages of the vault only when it succeeds. It does not look whether
    the file of the new page exists: on success that file holds the new
    content, whatever it held before. *)
Theorem X16_creation_footprint `{YamlCodec} (sync : SyncCmd) (w w' : World)
    (userID nickname folder : string) (options : Options) (r : result nat) :
  createPageInFolder sync w userID nickname folder options = (r, w') →
  let file := pageFileOf options folder userID nickname in
  Path (vault w') = Path (vault w)
  ∧ dirs (disk w) ⊆ dirs (disk w')
  ∧ (∀ q, q ≠ file → files (disk w') !! q = files (disk w) !! q)
  ∧ match r with
    | Ok ptr => ∃ page, Pages (vault w') = Pages (vault w) ++ [page]
                        ∧ loadPage (disk w') file (OptionsVault options) = Ok page
    | Err _ => Pages (vault w') = Pages (vault w)
    end.
Proof.
  unfold createPageInFolder, pageFileOf. fold (pageNameOf userID nickname).
  set (file := Join _ (pageNameOf userID nickname +:+ ".md")).
  destruct (MkdirAll _ _) as [fs1|] eqn:Hmk; [| by intros [= <- <-]].
  apply MkdirAll_footprint in Hmk as (Hf1 & Hd1 & _). cbn [setDisk disk vault].
  destruct (WriteFile _ _ _) as [fs2|] eqn:Hwr.
  - apply WriteFile_footprint in Hwr as (Hd2 & _ & Hf2). cbn [setDisk disk vault].
    unfold LoadPage.
    destruct (loadPage fs2 file _) as [page|] eqn:Hload; intros [= <- <-]; simpl;
      (split; [done |]); (split; [rewrite Hd2, Hd1; apply union_subseteq_l |]);
      (split; [intros q Hq; by rewrite (Hf2 q Hq), Hf1 |]); [by exists page | done].
  - intros [= <- <-]. simpl. split; [done |]. split; [rewrite Hd1; apply union_subseteq_l |].
    split; [| done]. intros q _. by rewrite Hf1.
Qed.

Lemma X16_creation_footprint_witness :
  let r := @createPageInFolder plainYaml sampleSync aliceWorld "12345" "Alice" "People"
             sampleOptions in
  files (disk aliceWorld) !! ["vault"; "People"; "Alice.md"] = Some aliceText
  ∧ files (disk r.2) !! ["vault"; "People"; "Alice.md"] ≠ Some aliceText
  ∧ dirs (disk aliceWorld) ⊆ dirs (disk r.2).
Proof.
  destruct (@X16_creation_footprint plainYaml sampleSync aliceWorld
              (@createPageInFolder plainYaml sampleSync aliceWorld "12345" "Alice" "People"
                 sampleOptions).2
              "12345" "Alice" "People" sampleOptions
              (@createPageInFolder plainYaml sampleSync aliceWorld "12345" "Alice" "People"
                 sampleOptions).1)
    as (_ & Hd & _ & _); [by destruct (createPageInFolder _ _ _ _ _ _) |].
  split; [reflexivity |]. split; [| exact Hd].
  vm_compute. discriminate.
Defined.

(** ** Templates *)

Lemma replaceFrom_absent (s old new : string) :
  Contains s old = false → replaceFrom 0 s old new = s.
Proof.
  induction s as [|c s IH]; [done |]. cbn [Contains replaceFrom].
  intros [Hp Hc]%orb_false_iff. by rewrite Hp, (IH Hc).
Qed.

Lemma ReadFile_after_MkdirAll (fs fs1 : FS) (p q : path) (content : string) :
  MkdirAll fs p = Ok fs1 → ReadFile fs q = Ok content → ReadFile fs1 q = Ok content.
Proof.
  intros (Hf & Hd & Hfree)%MkdirAll_footprint. unfold ReadFile, isDir.
  rewrite Hf, Hd. case_bool_decide as Hq; [done |].
  destruct (files fs !! q) as [c|] eqn:Hfile; [| done]. intros [= <-].
  rewrite bool_decide_eq_false_2; [done |].
  intros [->|[?|Hanc%elem_of_list_to_set]%elem_of_union]; [by destruct Hq; left | by destruct Hq; right |].
  rewrite (Hfree q Hanc) in Hfile. done.
Qed.

(** X17. The identifier and the page name enter a new page by textual
    replacement only. When the template file holds neither the placeholder
    [{{title}}] nor the line start [url: https://fetlife.com/users/], a
    successful [createPageInFolder] writes the template as it is: the new
    page carries no trace of the identifier. *)
Theorem X17_template_verbatim `{YamlCodec} (sync : SyncCmd) (w w' : World)
    (userID nickname folder template : string) (options : Options) (ptr : nat) :
  ReadFile (disk w) (Join (Join (OptionsVault options) "Templates") "People.md")
    = Ok template →
  Contains template "{{title}}" = false →
  Contains template urlPrefix = false →
  createPageInFolder sync w userID nickname folder options = (Ok ptr, w') →
  files (disk w') !! pageFileOf options folder userID nickname = Some template.
Proof.
  intros Hread Htitle Hurl. unfold createPageInFolder, pageFileOf.
  fold (pageNameOf userID nickname).
  destruct (MkdirAll _ _) as [fs1|] eqn:Hmk; [| done]. cbn [setDisk disk vault].
  rewrite (ReadFile_after_MkdirAll _ _ _ _ _ Hmk Hread).
  unfold ReplaceAll. rewrite (replaceFrom_absent _ _ _ Htitle), (replaceFrom_absent _ _ _ Hurl).
  destruct (WriteFile _ _ _) as [fs2|] eqn:Hwr; [| done].
  apply WriteFile_footprint in Hwr as (_ & Hfile & _). cbn [setDisk disk vault].
  destruct (LoadPage _ _ _); [| done]. by intros [= _ <-].
Qed.

Lemma X17_template_verbatim_witness :
  files (disk (@createPageInFolder plainYaml sampleSync plainTemplateWorld "12345" "Al"
                 "People" sampleOptions).2)
    !! ["vault"; "People"; "Al.md"]
  = Some plainTemplate.
Proof.
  apply (@X17_template_verbatim plainYaml sampleSync plainTemplateWorld _ "12345" "Al"
           "People" plainTemplate sampleOptions 0%nat);
    [reflexivity | reflexivity | reflexivity | vm_compute; reflexivity].
Defined.

(** ** Rules of the folder router *)

Lemma SplitN2_spec (s : string) (c : ascii) :
  (SplitN2 s c = [s] ∧ Contains s (String c "") = false)
  ∨ (∃ a b, SplitN2 s c = [a; b] ∧ s = a +:+ String c b
            ∧ Contains a (String c "") = false).
Proof.
  induction s as [|d s IH]; [by left |]. cbn [SplitN2 Contains].
  rewrite HasPrefix_byte. destruct (Ascii.eqb_spec d c) as [->|Hne].
  - right. by exists "", s.
  - destruct IH as [[-> Hfree]|(a & b & -> & -> & Hfree)].
    + left. by rewrite Hfree.
    + right. exists (String d a), b. split; [done |]. split; [done |].
      cbn [Contains]. rewrite HasPrefix_byte, Hfree.
      by destruct (Ascii.eqb_spec d c).
Qed.

Lemma SplitN2_app (a b : string) (c : ascii) :
  Contains a (String c "") = false → SplitN2 (a +:+ String c b) c = [a; b].
Proof.
  induction a as [|d a IH]; cbn [Contains].
  - intros _. simpl. by rewrite Ascii.eqb_refl.
  - rewrite HasPrefix_byte. intros [Hd Ha]%orb_false_iff.
    change (String d a +:+ String c b) with (String d (a +:+ String c b)).
    cbn [SplitN2]. by rewrite Hd, (IH Ha).
Qed.

Lemma no_colon_app (a b : string) : Contains (a +:+ String ":" b) ":" = true.
Proof.
  rewrite Contains_byte_app. cbn [Contains]. rewrite HasPrefix_byte. simpl.
  apply orb_true_r.
Qed.

Lemma parseFolderConfig_cases `{Unicode} (config : string) :
  (parseFolderConfig config = (config, []) ∧ Contains config ":" = false)
  ∨ (∃ a b, config = a +:+ String ":" b ∧ Contains a ":" = false
            ∧ parseFolderConfig config
              = (a, if negb (String.eqb b "") then collectKeywords (Split b ",") else [])).
Proof.
  unfold parseFolderConfig.
  destruct (SplitN2_spec config ":") as [[-> Hfree]|(a & b & -> & -> & Hfree)].
  - by left.
  - right. by exists a, b.
Qed.

Lemma parseFolderConfig_bare `{Unicode} (folder : string) :
  Contains folder ":" = false → parseFolderConfig folder = (folder, []).
Proof.
  intros Hfree.
  destruct (parseFolderConfig_cases folder) as [[-> _]|(a & b & -> & _)]; [done |].
  by rewrite no_colon_app in Hfree.
Qed.

Lemma parseFolderConfig_colon `{Unicode} (folder : string) :
  Contains folder ":" = false → parseFolderConfig (folder +:+ ":") = (folder, []).
Proof.
  intros Hfree. unfold parseFolderConfig. by rewrite (SplitN2_app folder "" ":" Hfree).
Qed.

(** X18. [parseFolderConfig] cuts a rule at its first colon: the folder is
    the text before it and holds no colon; a rule without a colon is a
    folder without keywords. The keywords are the pieces between the
    commas of the text after that colon, each trimmed and then put in
    lower case, in the order of the rule and with their repetitions; a
    piece that is empty once trimmed is left out. A rule that ends in its
    first colon means the same as the rule without the colon. *)
Theorem X18_parseFolderConfig `{Unicode} (config : string) :
  let folder := (parseFolderConfig config).1 in
  let keywords := (parseFolderConfig config).2 in
  Contains folder ":" = false
  ∧ ((config = folder ∧ keywords = [])
     ∨ ∃ rest, config = folder +:+ ":" +:+ rest
               ∧ keywords = if String.eqb rest "" then []
                            else ToLower <$> filter (λ kw, kw ≠ "")
                                               (TrimSpace <$> Split rest ","))
  ∧ parseFolderConfig (folder +:+ ":") = (folder, [])
  ∧ parseFolderConfig folder = (folder, []).
Proof.
  intros folder keywords. subst folder keywords.
  destruct (parseFolderConfig_cases config) as [[-> Hfree]|(a & b & -> & Hfree & ->)];
    cbn [fst snd].
  - split; [done |]. split; [by left |].
    split; [by apply parseFolderConfig_colon | by apply parseFolderConfig_bare].
  - split; [done |]. split.
    + right. exists b. split; [done |].
      destruct (String.eqb b ""); cbn [negb]; [done | apply collectKeywords_written].
    + split; [by apply parseFolderConfig_colon | by apply parseFolderConfig_bare].
Qed.

(** ** Letter case in the folder router *)

(** X19. The folder router sees a note that is not empty through its
    lower-case form only: two such notes with the same lower-case form,
    for one two notes that differ in the case of their letters, are
    routed alike, whatever the rules. *)
Theorem X19_case_insensitive `{Unicode} (sync : SyncCmd) (userID note note' : string) :
  note ≠ "" → note' ≠ "" → ToLower note = ToLower note' →
  determineFolderForUser sync userID note = determineFolderForUser sync userID note'.
Proof.
  intros Hn Hn' Hlower. unfold determineFolderForUser. rewrite Hlower.
  destruct (String.eqb_spec note ""); [done |].
  by destruct (String.eqb_spec note' "").
Qed.

Lemma X19_case_insensitive_witness :
  @determineFolderForUser asciiText sampleSync "1" "So CREEPY" = "Bad People"
  ∧ @determineFolderForUser asciiText sampleSync "1" "So CREEPY"
    = @determineFolderForUser asciiText sampleSync "1" "so creepy".
Proof.
  split; [reflexivity |].
  apply (@X19_case_insensitive asciiText sampleSync "1" "So CREEPY" "so creepy");
    [discriminate | discriminate | reflexivity].
Defined.

(** X20. With at least one rule, [determineFolderForUser] answers the
    folder of one of the rules: a note never leads to a folder that is not
    configured. *)
Theorem X20_folder_is_configured `{Unicode} (sync : SyncCmd) (userID note : string) :
  CreatePeopleIn sync ≠ [] →
  ∃ rule, rule ∈ CreatePeopleIn sync
          ∧ determineFolderForUser sync userID note = (parseFolderConfig rule).1.
Proof.
  intros Hrules. unfold determineFolderForUser.
  destruct (CreatePeopleIn sync) as [|first rest] eqn:E; [done |].
  change (Z.of_nat (length (first :: rest)) =? 0) with false. cbn iota.
  destruct (negb _).
  - pose proof (scanConfigs_spec note (first :: rest)) as Hscan.
    destruct (scanConfigs (ToLower note) (first :: rest)) as [folder|].
    + destruct Hscan as (i & rule & (Hi & _) & ->). exists rule.
      split; [by eapply list_elem_of_lookup_2 | done].
    + exists first. split; [left | done].
  - exists first. split; [left | done].
Qed.

Lemma X20_folder_is_configured_witness :
  ∃ rule, rule ∈ CreatePeopleIn sampleSync
          ∧ @determineFolderForUser asciiText sampleSync "1" "a stalker"
            = (@parseFolderConfig asciiText rule).1.
Proof.
  apply (@X20_folder_is_configured asciiText sampleSync "1" "a stalker"). discriminate.
Defined.

(** ** The readers of the exports *)

Example ReadBlockeds_dataDisk :
  @ReadBlockeds plainTables dataDisk ["data"]
  = ReadOk [BlockedRecord.mk "12345" "2024-01-15" "2024-01-16" "BadUser";
            BlockedRecord.mk "678" "2024-02-01" "2024-02-02" "Other"].
Proof. vm_compute. reflexivity. Qed.

Lemma blockedsFrom_spec (i : nat) (records : list (list string))
    (blockeds : list BlockedRecord.t) :
  blockedsFrom (S i) records blockeds = blockeds ++ omap rowBlocked records.
Proof.
  revert i blockeds. induction records as [|record rest IH]; intros i blockeds.
  - by rewrite app_nil_r.
  - cbn [blockedsFrom Nat.eqb]. rewrite !IH. csimpl.
    destruct record as [|a [|b [|c [|d more]]]]; try done.
    simpl length. destruct (Z.ltb_spec (Z.of_nat (S (S (S (S (length more)))))) 4);
      [lia |]. by rewrite <- app_assoc.
Qed.

Lemma notesFrom_spec (i : nat) (records : list (list string))
    (notes : list PrivateNoteRecord.t) :
  notesFrom (S i) records notes = notes ++ omap rowNote records.
Proof.
  revert i notes. induction records as [|record rest IH]; intros i notes.
  - by rewrite app_nil_r.
  - cbn [notesFrom Nat.eqb]. rewrite !IH. csimpl.
    destruct record as [|a [|b [|c [|d more]]]]; try done.
    simpl length. destruct (Z.ltb_spec (Z.of_nat (S (S (S (S (length more)))))) 4);
      [lia |]. by rewrite <- app_assoc.
Qed.

Lemma length_omap_le {A B} (f : A → option B) (l : list A) :
  (length (omap f l) ≤ length l)%nat.
Proof. induction l as [|x l IH]; [done |]. csimpl. destruct (f x); simpl; lia. Qed.

(** X21. The readers turn the records of a file into typed records in the
    order of the file: the first record is the header and gives nothing,
    whatever it holds; a record with fewer than four fields is dropped
    and does not end the reading; of a record with more than four fields
    the first four are taken. A file without records, even without a
    header, gives the empty list and no error. *)
Theorem X21_readers_rows (records : list (list string)) :
  blockedsFrom 0 records [] = omap rowBlocked (tail records)
  ∧ notesFrom 0 records [] = omap rowNote (tail records)
  ∧ (length (blockedsFrom 0 records []) ≤ length records - 1)%nat
  ∧ (length (notesFrom 0 records []) ≤ length records - 1)%nat.
Proof.
  assert (blockedsFrom 0 records [] = omap rowBlocked (tail records)) as Hb.
  { destruct records as [|header rows]; [done |]. apply blockedsFrom_spec. }
  assert (notesFrom 0 records [] = omap rowNote (tail records)) as Hn.
  { destruct records as [|header rows]; [done |]. apply notesFrom_spec. }
  rewrite Hb, Hn. split; [done |]. split; [done |].
  pose proof (length_omap_le rowBlocked (tail records)).
  pose proof (length_omap_le rowNote (tail records)).
  destruct records; simpl in *; lia.
Qed.

(** ** The run of the sync command *)

(** X22. [Run] reads both exports before it processes a record. It returns
    an error exactly when the vault cannot be loaded or one of the two
    exports cannot be read, and then the disk is as before: a missing
    [private_notes.txt] keeps the blocked records from being applied. In
    every other case it returns no error, whatever happens to the single
    records. *)
Theorem X22_Run_reads_first `{YamlCodec} `{Unicode} `{Tables} (sync : SyncCmd) (dataDir : path)
    (options : Options) (fs : FS) :
  let r := SyncCmd_Run sync dataDir options fs in
  (r.1 = None
   ↔ (Load fs (NewVault (OptionsVault options))).1 = None
     ∧ (∃ blockeds, ReadBlockeds fs dataDir = ReadOk blockeds)
     ∧ (∃ privateNotes, ReadPrivateNotes fs dataDir = ReadOk privateNotes))
  ∧ (r.1 ≠ None → disk r.2 = fs).
Proof.
  unfold SyncCmd_Run.
  destruct (Load fs (NewVault (OptionsVault options))) as [[e|] v]; simpl.
  { split; [| done]. split; [done | by intros [? _]]. }
  destruct (ReadBlockeds fs dataDir) as [blockeds|e]; simpl.
  2:{ split; [| done]. split; [done | by intros (_ & [? ?] & _)]. }
  destruct (ReadPrivateNotes fs dataDir) as [privateNotes|e]; simpl.
  2:{ split; [| done]. split; [done | by intros (_ & _ & [? ?])]. }
  split; [| done]. split; [| done]. intros _. split; [done |]. split; by eexists.
Qed.

(** ** What a run leaves alone *)

Lemma foldl_invariant {A W : Type} (P : W → Prop) (R : W → W → Prop)
    (step : W → A → W) :
  (∀ w, R w w) → (∀ a b c, R a b → R b c → R a c) →
  (∀ w a, P w → P (step w a) ∧ R w (step w a)) →
  ∀ l w, P w → P (foldl step w l) ∧ R w (foldl step w l).
Proof.
  intros Hrefl Htrans Hstep l. induction l as [|a l IH]; intros w Hw; simpl.
  - by split.
  - destruct (Hstep w a Hw) as [Hp Hr]. destruct (IH _ Hp) as [Hp' Hr'].
    split; [done |]. by eapply Htrans.
Qed.

Lemma spares_refl (fs : FS) : spares fs fs.
Proof. split; [done |]. intros q _. split; [done | by left]. Qed.

Lemma spares_trans (a b c : FS) : spares a b → spares b c → spares a c.
Proof.
  intros [Hd1 H1] [Hd2 H2]. split; [by etrans |]. intros q Hq.
  destruct (H1 q Hq) as [Hf1 Hn1], (H2 q Hq) as [Hf2 Hn2].
  split; [congruence |]. intros Hin. destruct (Hn2 Hin) as [Hb|Hb].
  - by apply Hn1.
  - right. congruence.
Qed.

Lemma joinSlash_cons (a : string) (l : path) :
  l ≠ [] → joinSlash (a :: l) = a +:+ "/" +:+ joinSlash l.
Proof. by destruct l. Qed.

Lemma joinSlash_snoc (p : path) (c : string) : ∃ pre, joinSlash (p ++ [c]) = pre +:+ c.
Proof.
  induction p as [|a p [pre IH]]; [by exists "" |].
  exists (a +:+ "/" +:+ pre). change ((a :: p) ++ [c]) with (a :: (p ++ [c])).
  rewrite joinSlash_cons by by destruct p. rewrite IH. by rewrite !sapp_assoc.
Qed.

Lemma isMarkdown_snoc (p : path) (t : string) : isMarkdown (p ++ [t +:+ ".md"]).
Proof.
  unfold isMarkdown, pathText. destruct (joinSlash_snoc p (t +:+ ".md")) as [pre ->].
  apply HasSuffix_iff. exists ("/" +:+ pre +:+ t). by rewrite !sapp_assoc.
Qed.

Lemma Split_md (s : string) :
  ∃ front t, Split (s +:+ ".md") "/" = front ++ [t +:+ ".md"].
Proof.
  induction s as [|c s (front & t & IH)].
  - by exists [], "".
  - change (String c s +:+ ".md") with (String c (s +:+ ".md")). cbn [Split]. rewrite IH.
    destruct (Ascii.eqb c "/").
    + by exists ("" :: front), t.
    + destruct front as [|w front]; simpl.
      * by exists [], (String c t).
      * by exists (String c w :: front), t.
Qed.

Lemma Join_md (p : path) (s : string) :
  ∃ p' t, Join p (s +:+ ".md") = p' ++ [t +:+ ".md"].
Proof.
  unfold Join. destruct (Split_md s) as (front & t & ->).
  rewrite foldl_app. simpl. exists (foldl joinStep p front), t.
  pose proof (slength_md t) as Hlen. unfold joinStep.
  destruct (String.eqb_spec (t +:+ ".md") "") as [E|_];
    [rewrite E in Hlen; simpl in Hlen; lia |].
  destruct (String.eqb_spec (t +:+ ".md") ".") as [E|_];
    [rewrite E in Hlen; simpl in Hlen; lia |].
  destruct (String.eqb_spec (t +:+ ".md") "..") as [E|_];
    [rewrite E in Hlen; simpl in Hlen; lia | done].
Qed.

Lemma WriteFile_spares (fs fs' : FS) (p : path) (data : string) :
  isMarkdown p → WriteFile fs p data = Ok fs' → spares fs fs'.
Proof.
  intros Hmd (Hd & _ & Ho)%WriteFile_footprint. split; [by rewrite Hd |].
  intros q Hq. split; [apply Ho; by intros -> |]. rewrite Hd. by left.
Qed.

Lemma MkdirAll_spares (fs fs' : FS) (p : path) :
  MkdirAll fs p = Ok fs' → spares fs fs'.
Proof.
  intros (Hf & Hd & Hfree)%MkdirAll_footprint. split.
  - rewrite Hd. apply union_subseteq_l.
  - intros q _. split; [by rewrite Hf |]. rewrite Hd.
    intros [Hin|Hin%elem_of_list_to_set]%elem_of_union; [by left | right; by apply Hfree].
Qed.

Lemma updateAndSave_spares `{YamlCodec} (update : Page → Page) (ptr : nat) (w : World) :
  (∀ p, FilePath (update p) = FilePath p) →
  (ptr < length (Pages (vault w)))%nat →
  markdownPages (vault w) →
  let w' := (updateAndSave update ptr w).2 in
  markdownPages (vault w') ∧ spares (disk w) (disk w').
Proof.
  intros Hupd Hptr Hmd w'. subst w'.
  destruct (lookup_lt_is_Some_2 _ _ Hptr) as [page Hpage].
  assert (isMarkdown (FilePath page)) as Hfile.
  { unfold markdownPages in Hmd. rewrite Forall_forall in Hmd. apply Hmd.
    by eapply list_elem_of_lookup_2. }
  split.
  - unfold markdownPages. destruct (updateAndSave_pages update ptr w) as [_ ->].
    apply Forall_insert; [done |]. rewrite Hupd.
    by rewrite (list_lookup_total_correct _ _ _ Hpage).
  - unfold updateAndSave, Save. rewrite (list_lookup_total_correct _ _ _ Hpage).
    destruct (WriteFile _ _ _) as [fs'|e] eqn:Hw; simpl; [| apply spares_refl].
    eapply WriteFile_spares; [| exact Hw]. by rewrite Hupd.
Qed.

Lemma createPageInFolder_spares `{YamlCodec} (sync : SyncCmd) (w w' : World)
    (userID nickname folder : string) (options : Options) (r : result nat) :
  createPageInFolder sync w userID nickname folder options = (r, w') →
  markdownPages (vault w) →
  markdownPages (vault w') ∧ spares (disk w) (disk w')
  ∧ match r with
    | Ok ptr => (ptr < length (Pages (vault w')))%nat
    | Err _ => True
    end.
Proof.
  unfold createPageInFolder. intros Hcreate Hmd.
  destruct (MkdirAll _ _) as [fs1|] eqn:Hmk.
  2:{ injection Hcreate as <- <-. split; [done |]. split; [apply spares_refl | done]. }
  apply MkdirAll_spares in Hmk. cbn [setDisk disk vault] in Hcreate.
  destruct (Join_md (Join (OptionsVault options) folder)
              (if String.eqb nickname "" then "user-" +:+ userID else nickname))
    as (p' & t & Hfile).
  rewrite Hfile in Hcreate.
  destruct (WriteFile _ _ _) as [fs2|] eqn:Hwr.
  2:{ injection Hcreate as <- <-. simpl. by split. }
  apply WriteFile_spares in Hwr; [| apply isMarkdown_snoc].
  cbn [setDisk disk vault] in Hcreate. unfold LoadPage in Hcreate.
  destruct (loadPage fs2 _ _) as [page|] eqn:Hload; injection Hcreate as <- <-; simpl.
  - apply loadPage_fields in Hload as (_ & _ & Hpath).
    split; [| split; [by eapply spares_trans |]].
    + unfold markdownPages. simpl. apply Forall_app. split; [done |].
      constructor; [| done]. rewrite Hpath. apply isMarkdown_snoc.
    + rewrite length_app. simpl. lia.
  - split; [done |]. split; [by eapply spares_trans | done].
Qed.

Lemma found_spares `{YamlCodec} (update : Page → Page) (w w1 : World)
    (ptrs : list nat) (created : result nat) (userID : string) :
  (∀ p, FilePath (update p) = FilePath p) →
  ptrs = findFrom 0 (Pages (vault w)) userID →
  markdownPages (vault w) →
  (markdownPages (vault w1) ∧ spares (disk w) (disk w1)
   ∧ match created with
     | Ok ptr => (ptr < length (Pages (vault w1)))%nat
     | Err _ => True
     end) →
  let w' := (match (if Z.of_nat (length ptrs) =? 0 then (created, w1)
                    else (Ok (ptrs !!! 0%nat), w)) with
             | (Err e, w2) => (Some e, w2)
             | (Ok ptr, w2) => updateAndSave update ptr w2
             end).2 in
  markdownPages (vault w') ∧ spares (disk w) (disk w').
Proof.
  intros Hupd Hptrs Hmd (Hmd1 & Hsp1 & Hptr) w'. subst w'.
  destruct (Z.eqb_spec (Z.of_nat (length ptrs)) 0) as [Hzero|Hnonzero].
  - destruct created as [ptr|e]; simpl; [| by split].
    destruct (updateAndSave_spares update ptr w1 Hupd Hptr Hmd1) as [Hmd2 Hsp2].
    split; [done | by eapply spares_trans].
  - destruct ptrs as [|ptr rest]; [done |].
    change ((ptr :: rest) !!! 0%nat) with ptr.
    apply updateAndSave_spares; [done | | done].
    assert (ptr ∈ findFrom 0 (Pages (vault w)) userID) as Hin by (rewrite <- Hptrs; left).
    apply findFrom_elem in Hin as (k & page & -> & Hk%lookup_lt_Some & _). lia.
Qed.

Lemma blockedUpdate_FilePath (blocked : BlockedRecord.t) (page : Page) :
  FilePath (blockedUpdate blocked page) = FilePath page.
Proof.
  by destruct (blockedUpdate_keeps blocked page) as ((_ & _ & _ & _ & _ & _ & <- & _) & _).
Qed.

Lemma processBlocked_spares `{YamlCodec} (sync : SyncCmd) (options : Options) (w : World)
    (blocked : BlockedRecord.t) :
  markdownPages (vault w) →
  markdownPages (vault (processBlocked sync w blocked options).2)
  ∧ spares (disk w) (disk (processBlocked sync w blocked options).2).
Proof.
  intros Hmd. unfold processBlocked, findPageByUserID.
  set (ptrs := findFrom 0 (Pages (vault w)) (BlockedRecord.UserID blocked)).
  destruct (1 <? Z.of_nat (length ptrs)); [split; [done | apply spares_refl] |].
  destruct (createPageInFolder sync w (BlockedRecord.UserID blocked)
              (BlockedRecord.Nickname blocked) (CreateBlockedIn sync) options)
    as [created w1] eqn:Hcreate.
  apply (found_spares _ w w1 ptrs created (BlockedRecord.UserID blocked));
    [apply blockedUpdate_FilePath | done | done |].
  by apply createPageInFolder_spares in Hcreate.
Qed.

Lemma processPrivateNote_spares `{YamlCodec} `{Unicode} (sync : SyncCmd) (options : Options)
    (w : World) (note : PrivateNoteRecord.t) :
  markdownPages (vault w) →
  markdownPages (vault (processPrivateNote sync w note options).2)
  ∧ spares (disk w) (disk (processPrivateNote sync w note options).2).
Proof.
  intros Hmd. unfold processPrivateNote, findPageByUserID, createPageFromTemplateWithNote.
  set (ptrs := findFrom 0 (Pages (vault w)) (PrivateNoteRecord.MemberID note)).
  destruct (1 <? Z.of_nat (length ptrs)); [split; [done | apply spares_refl] |].
  destruct (createPageInFolder sync w (PrivateNoteRecord.MemberID note) ""
              (determineFolderForUser sync (PrivateNoteRecord.MemberID note)
                 (PrivateNoteRecord.PrivateNote note)) options)
    as [created w1] eqn:Hcreate.
  apply (found_spares _ w w1 ptrs created (PrivateNoteRecord.MemberID note));
    [done | done | done |].
  by apply createPageInFolder_spares in Hcreate.
Qed.

Lemma Load_markdownPages `{YamlCodec} (fs : FS) (v v' : Vault) :
  markdownPages v → Load fs v = (None, v') → markdownPages v'.
Proof.
  intros Hmd. unfold Load.
  assert (∀ paths pages', walkLoad fs (Path v) paths (Pages v) = (None, pages') →
            Forall (λ page, isMarkdown (FilePath page)) pages') as Hwalk.
  { intros paths pages' Hw.
    pose proof (walkLoad_spec fs (Path v) paths (Pages v)) as (new & Hnew & Hspec).
    rewrite Hw in Hnew, Hspec. simpl in Hnew, Hspec. subst pages'.
    apply Forall_app. split; [done |]. unfold loadedFrom in Hspec.
    assert (Forall isMarkdown (filter isMarkdown paths)) as Hall.
    { apply Forall_forall. intros p Hp. by apply list_elem_of_filter in Hp as [? _]. }
    revert Hall Hspec. generalize (filter isMarkdown paths). clear.
    intros ps Hall Hspec. induction Hspec as [|p page ps pages Hload _ IH]; [done |].
    apply Forall_cons in Hall as [Hp Hps]. constructor; [| by apply IH].
    apply loadPage_fields in Hload as (_ & _ & ->). done. }
  destruct (isDir fs (Path v)).
  - destruct (walkLoad _ _ _ _) as [e pages] eqn:Hw. intros [= -> <-].
    by apply (Hwalk _ _ Hw).
  - destruct (files fs !! Path v); [| done].
    destruct (walkLoad _ _ _ _) as [e pages] eqn:Hw. intros [= -> <-].
    by apply (Hwalk _ _ Hw).
Qed.

Lemma Run_spares `{YamlCodec} `{Unicode} `{Tables} (sync : SyncCmd) (dataDir : path)
    (options : Options) (fs : FS) :
  spares fs (disk (SyncCmd_Run sync dataDir options fs).2).
Proof.
  unfold SyncCmd_Run.
  destruct (Load fs (NewVault (OptionsVault options))) as [[e|] v] eqn:Hload;
    [apply spares_refl |].
  destruct (ReadBlockeds fs dataDir) as [blockeds|e]; [| apply spares_refl].
  destruct (ReadPrivateNotes fs dataDir) as [privateNotes|e]; [| apply spares_refl].
  cbn [snd]. apply Load_markdownPages in Hload; [| constructor].
  unfold processPrivateNotes, processBlockeds.
  pose proof (foldl_invariant (λ w, markdownPages (vault w))
                (λ w w', spares (disk w) (disk w'))
                (λ w blocked, (processBlocked sync w blocked options).2)
                (λ w, spares_refl _) (λ a b c, spares_trans _ _ _)
                (λ w a, processBlocked_spares sync options w a)
                blockeds (mkWorld v fs) Hload) as [Hmd1 Hsp1].
  pose proof (foldl_invariant (λ w, markdownPages (vault w))
                (λ w w', spares (disk w) (disk w'))
                (λ w note, (processPrivateNote sync w note options).2)
                (λ w, spares_refl _) (λ a b c, spares_trans _ _ _)
                (λ w a, processPrivateNote_spares sync options w a)
                privateNotes _ Hmd1) as [_ Hsp2].
  simpl in Hsp1. by eapply spares_trans.
Qed.

(** X23. A run writes markdown files only. A file whose path does not end
    in [.md] has after the run the content it had before, whatever the
    two exports hold and whether the run succeeds or not, and it can
    still be read: no directory is made in its place. No directory is
    removed. The two exports and everything else that is not a page are
    safe from a sync. *)
Theorem X23_Run_spares_other_files `{YamlCodec} `{Unicode} `{Tables} (sync : SyncCmd)
    (dataDir : path) (options : Options) (fs : FS) (q : path) :
  ¬ isMarkdown q →
  let fs' := disk (SyncCmd_Run sync dataDir options fs).2 in
  files fs' !! q = files fs !! q
  ∧ (∀ content, ReadFile fs q = Ok content → ReadFile fs' q = Ok content)
  ∧ dirs fs ⊆ dirs fs'.
Proof.
  intros Hq fs'. destruct (Run_spares sync dataDir options fs) as [Hd Hsp].
  destruct (Hsp q Hq) as [Hf Hn]. fold fs' in Hf, Hn, Hd.
  split; [done |]. split; [| done]. intros content. unfold ReadFile, isDir.
  case_bool_decide as Hdir; [done |].
  destruct (files fs !! q) as [c|] eqn:Hc; [| done]. intros [= <-].
  rewrite bool_decide_false, Hf; [done |].
  intros [->|Hin]; [by destruct Hdir; left |].
  destruct (Hn Hin) as [?|?]; [destruct Hdir; by right | done].
Qed.

Lemma X23_Run_spares_other_files_witness :
  let r := @SyncCmd_Run plainYaml asciiText plainTables sampleSync ["data"] sampleOptions syncDisk in
  r.1 = None
  ∧ ¬ isMarkdown ["data"; "blockeds.txt"]
  ∧ files (disk r.2) !! ["data"; "blockeds.txt"] = files syncDisk !! ["data"; "blockeds.txt"]
  ∧ files (disk r.2) !! ["vault"; "People"; "Alice.md"]
    ≠ files syncDisk !! ["vault"; "People"; "Alice.md"].
Proof.
  assert (¬ isMarkdown ["data"; "blockeds.txt"]) as Hq by (vm_compute; discriminate).
  split; [vm_compute; reflexivity |]. split; [exact Hq |].
  split; [| vm_compute; discriminate].
  exact (proj1 (X23_Run_spares_other_files (H := plainYaml) (H0 := asciiText) (H1 := plainTables)
                  sampleSync ["data"] sampleOptions syncDisk
                  ["data"; "blockeds.txt"] Hq)).
Defined.

Lemma keptBy_refl (p : Page) : keptBy p p.
Proof. by repeat split. Qed.

Lemma keptBy_trans (p q r : Page) : keptBy p q → keptBy q r → keptBy p r.
Proof.
  unfold keptBy, sameIdentity. intros [Hpq Tpq] [Hqr Tqr].
  split; [intuition congruence | by etrans].
Qed.

Lemma foldl_keeps {A : Type} (step : World → A → World) :
  (∀ w a, Path (vault (step w a)) = Path (vault w)
          ∧ (length (Pages (vault w)) ≤ length (Pages (vault (step w a)))
             ≤ S (length (Pages (vault w))))%nat
          ∧ ∀ i page, Pages (vault w) !! i = Some page →
              ∃ page', Pages (vault (step w a)) !! i = Some page' ∧ keptBy page page') →
  ∀ l w, Path (vault (foldl step w l)) = Path (vault w)
         ∧ (length (Pages (vault w)) ≤ length (Pages (vault (foldl step w l)))
            ≤ length (Pages (vault w)) + length l)%nat
         ∧ ∀ i page, Pages (vault w) !! i = Some page →
             ∃ page', Pages (vault (foldl step w l)) !! i = Some page' ∧ keptBy page page'.
Proof.
  intros Hstep l. induction l as [|a l IH]; intros w; simpl.
  - split; [done |]. split; [lia |]. intros i page Hi. exists page.
    split; [done | apply keptBy_refl].
  - destruct (Hstep w a) as (Hp & Hl & Hk). destruct (IH (step w a)) as (Hp' & Hl' & Hk').
    split; [congruence |]. split; [lia |]. intros i page Hi.
    destruct (Hk i page Hi) as (page1 & Hi1 & K1).
    destruct (Hk' i page1 Hi1) as (page2 & Hi2 & K2).
    exists page2. split; [done | by eapply keptBy_trans].
Qed.

Lemma Load_Path `{YamlCodec} (fs : FS) (v : Vault) : Path (Load fs v).2 = Path v.
Proof.
  unfold Load. destruct (isDir fs (Path v)).
  - by destruct (walkLoad _ _ _ _).
  - destruct (files fs !! Path v); [| done]. by destruct (walkLoad _ _ _ _).
Qed.

(** X24. A run that gets as far as the records keeps the vault it has
    loaded: the root is the root of the options, every loaded page stays
    at its place with its title, folder, aliases, URL, URL aliases, badge
    colour, file and body, and with the tags it had in front of its
    tags; and the run adds at most one page per record. *)
Theorem X24_Run_keeps_loaded `{YamlCodec} `{Unicode} `{Tables} (sync : SyncCmd) (dataDir : path)
    (options : Options) (fs : FS) (v : Vault) (blockeds : list BlockedRecord.t)
    (privateNotes : list PrivateNoteRecord.t) :
  Load fs (NewVault (OptionsVault options)) = (None, v) →
  ReadBlockeds fs dataDir = ReadOk blockeds →
  ReadPrivateNotes fs dataDir = ReadOk privateNotes →
  let w' := (SyncCmd_Run sync dataDir options fs).2 in
  Path (vault w') = OptionsVault options
  ∧ (length (Pages v) ≤ length (Pages (vault w'))
     ≤ length (Pages v) + length blockeds + length privateNotes)%nat
  ∧ ∀ i page, Pages v !! i = Some page →
      ∃ page', Pages (vault w') !! i = Some page'
               ∧ sameIdentity page page' ∧ Tags page `prefix_of` Tags page'.
Proof.
  intros Hload Hb Hn w'. subst w'. unfold SyncCmd_Run. rewrite Hload, Hb, Hn. cbn [snd].
  pose proof (Load_Path fs (NewVault (OptionsVault options))) as Hpath.
  rewrite Hload in Hpath. simpl in Hpath.
  unfold processPrivateNotes, processBlockeds.
  set (w1 := foldl (λ w blocked, (processBlocked sync w blocked options).2)
               (mkWorld v fs) blockeds).
  destruct (foldl_keeps (λ w blocked, (processBlocked sync w blocked options).2))
    with (l := blockeds) (w := mkWorld v fs) as (Hp1 & Hl1 & Hk1).
  { intros w blocked.
    apply (processed_keeps (blockedUpdate blocked) keptBy);
      [apply keptBy_refl | | apply processBlocked_processed].
    intros p. destruct (blockedUpdate_keeps blocked p) as (? & ? & _). by split. }
  destruct (foldl_keeps (λ w note, (processPrivateNote sync w note options).2))
    with (l := privateNotes) (w := w1) as (Hp2 & Hl2 & Hk2).
  { intros w note.
    apply (processed_keeps (setWebMessage (PrivateNoteRecord.PrivateNote note)) keptBy);
      [apply keptBy_refl | | apply processPrivateNote_processed].
    intros p. by repeat split. }
  fold w1 in Hp1, Hl1, Hk1. simpl in Hp1, Hl1, Hk1.
  split; [congruence |]. split; [lia |]. intros i page Hi.
  destruct (Hk1 i page Hi) as (page1 & Hi1 & K1).
  destruct (Hk2 i page1 Hi1) as (page2 & Hi2 & K2).
  exists page2. split; [done |]. by apply (keptBy_trans _ _ _ K1 K2).
Qed.

Lemma X24_Run_keeps_loaded_witness :
  let r := @SyncCmd_Run plainYaml asciiText plainTables sampleSync ["data"] sampleOptions syncDisk in
  Pages (vault r.2) !! 0%nat
  = Some (setWebMessage "met at an event" (setTags ["person"; "friend"; "blocked"] alicePage))
  ∧ Title <$> Pages (vault r.2) = ["Alice"; "Other"]
  ∧ ∃ page', Pages (vault r.2) !! 0%nat = Some page'
             ∧ sameIdentity alicePage page' ∧ Tags alicePage `prefix_of` Tags page'.
Proof.
  split; [vm_compute; reflexivity |]. split; [vm_compute; reflexivity |].
  assert (@Load plainYaml syncDisk (NewVault (OptionsVault sampleOptions))
          = (None, mkVault ["vault"] [alicePage])) as Hload by (vm_compute; reflexivity).
  assert (@ReadBlockeds plainTables syncDisk ["data"]
          = ReadOk [BlockedRecord.mk "12345" "2024-01-15" "2024-01-16" "BadUser";
                    BlockedRecord.mk "678" "2024-02-01" "2024-02-02" "Other"]) as Hb
    by (vm_compute; reflexivity).
  assert (@ReadPrivateNotes plainTables syncDisk ["data"]
          = ReadOk [PrivateNoteRecord.mk "12345" "2024-03-01" "2024-03-02" "met at an event"])
    as Hn by (vm_compute; reflexivity).
  exact (proj2 (proj2 (X24_Run_keeps_loaded (H := plainYaml) (H0 := asciiText) (H1 := plainTables)
                         sampleSync ["data"] sampleOptions syncDisk _ _ _ Hload Hb Hn))
           0%nat alicePage eq_refl).
Defined.

(** ** The merge, for exports that name an identifier more than once *)

Lemma lookupBlocked_last (bs1 bs2 : list BlockedRecord.t) (b : BlockedRecord.t) :
  (BlockedRecord.UserID b ∉ BlockedRecord.UserID <$> bs2) →
  lookupBlocked (BlockedRecord.UserID b) (bs1 ++ b :: bs2) = Some b.
Proof.
  intros Hfresh. induction bs1 as [|b0 bs1 IH]; simpl.
  - apply lookupBlocked_None in Hfresh as ->. by rewrite decide_True.
  - by rewrite IH.
Qed.

Lemma lookupNote_last (ns1 ns2 : list PrivateNoteRecord.t) (n : PrivateNoteRecord.t) :
  (PrivateNoteRecord.MemberID n ∉ PrivateNoteRecord.MemberID <$> ns2) →
  lookupNote (PrivateNoteRecord.MemberID n) (ns1 ++ n :: ns2) = Some n.
Proof.
  intros Hfresh. induction ns1 as [|n0 ns1 IH]; simpl.
  - apply lookupNote_None in Hfresh as ->. by rewrite decide_True.
  - by rewrite IH.
Qed.

(** X25. [mergeUserData] on any two exports, also when an identifier is
    named more than once. The result names every identifier of either
    export once, so it has as many records as there are distinct
    identifiers. Every record has the profile URL of its identifier; it is
    marked blocked exactly when its identifier is in the blocked export,
    and has no nickname and no blocking date otherwise; it has no note
    when its identifier is not in the note export. Of several blocked
    records with one identifier the last one gives the nickname and the
    date, and of several notes the last one gives the note. *)
Theorem X25_merge_last_wins (blockeds : list BlockedRecord.t)
    (privateNotes : list PrivateNoteRecord.t) :
  let result := mergeUserData blockeds privateNotes in
  NoDup (MergedUser.UserID <$> result)
  ∧ length result
    = length (remove_dups ((BlockedRecord.UserID <$> blockeds)
                           ++ (PrivateNoteRecord.MemberID <$> privateNotes)))
  ∧ (∀ u, u ∈ result →
       MergedUser.URL u = userURL (MergedUser.UserID u)
       ∧ (MergedUser.Blocked u = true
          ↔ MergedUser.UserID u ∈ BlockedRecord.UserID <$> blockeds)
       ∧ (MergedUser.Blocked u = false →
          MergedUser.Nickname u = "" ∧ MergedUser.BlockedAt u = "")
       ∧ ((MergedUser.UserID u ∉ PrivateNoteRecord.MemberID <$> privateNotes) →
          MergedUser.PrivateNote u = "" ∧ MergedUser.NoteCreated u = ""
          ∧ MergedUser.NoteUpdated u = ""))
  ∧ (∀ before b after, blockeds = before ++ b :: after →
       (BlockedRecord.UserID b ∉ BlockedRecord.UserID <$> after) →
       ∃ u, u ∈ result ∧ MergedUser.UserID u = BlockedRecord.UserID b
            ∧ MergedUser.Nickname u = BlockedRecord.Nickname b
            ∧ MergedUser.BlockedAt u = BlockedRecord.CreatedAt b)
  ∧ (∀ before n after, privateNotes = before ++ n :: after →
       (PrivateNoteRecord.MemberID n ∉ PrivateNoteRecord.MemberID <$> after) →
       ∃ u, u ∈ result ∧ MergedUser.UserID u = PrivateNoteRecord.MemberID n
            ∧ MergedUser.PrivateNote u = PrivateNoteRecord.PrivateNote n
            ∧ MergedUser.NoteCreated u = PrivateNoteRecord.CreatedAt n
            ∧ MergedUser.NoteUpdated u = PrivateNoteRecord.UpdatedAt n).
Proof.
  intros result. subst result.
  assert (NoDup (MergedUser.UserID <$> mergeUserData blockeds privateNotes)) as Hnodup.
  { rewrite mergeUserData_ids. apply NoDup_fst_map_to_list. }
  split; [done |]. split.
  { rewrite <- (length_fmap MergedUser.UserID).
    apply Permutation_length, NoDup_Permutation; [done | apply NoDup_remove_dups |].
    intros id. rewrite elem_of_remove_dups, elem_of_app, <- mergedMap_dom.
    rewrite mergeUserData_ids, list_elem_of_fmap. split.
    - intros ([id' u] & -> & Hin%elem_of_map_to_list). by exists u.
    - intros [u Hu]. exists (id, u). split; [done | by apply elem_of_map_to_list]. }
  split.
  { intros u (id & Hu)%mergeUserData_elem. rewrite mergedMap_lookup in Hu.
    pose proof (lookupBlocked_None id blockeds) as HbN.
    pose proof (lookupNote_None id privateNotes) as HnN.
    destruct (lookupBlocked id blockeds) as [b|] eqn:Hb,
             (lookupNote id privateNotes) as [n|] eqn:Hn; [| | | done];
      injection Hu as <-; simpl.
    - apply lookupBlocked_Some in Hb as [Hin <-]. apply lookupNote_Some in Hn as [Hin' Hid].
      split; [done |]. split; [| split; [done |]].
      + split; [intros _ | done]. apply list_elem_of_fmap. by exists b.
      + intros Hfresh. destruct Hfresh. apply list_elem_of_fmap. by exists n.
    - apply lookupBlocked_Some in Hb as [Hin <-].
      split; [done |]. split; [| split; [done | done]].
      split; [intros _ | done]. apply list_elem_of_fmap. by exists b.
    - apply lookupNote_Some in Hn as [Hin <-].
      split; [done |]. split; [| split; [done |]].
      + split; [done |]. intros Hin'. by apply HbN in Hin'.
      + intros Hfresh. destruct Hfresh. apply list_elem_of_fmap. by exists n. }
  split.
  - intros before b after -> Hfresh.
    pose proof (mergedMap_lookup (before ++ b :: after) privateNotes
                  (BlockedRecord.UserID b)) as Hl.
    rewrite (lookupBlocked_last _ _ _ Hfresh) in Hl.
    destruct (lookupNote (BlockedRecord.UserID b) privateNotes) as [n|];
      eexists; (split; [apply mergeUserData_elem; eexists; exact Hl |]); done.
  - intros before n after -> Hfresh.
    pose proof (mergedMap_lookup blockeds (before ++ n :: after)
                  (PrivateNoteRecord.MemberID n)) as Hl.
    rewrite (lookupNote_last _ _ _ Hfresh) in Hl.
    destruct (lookupBlocked (PrivateNoteRecord.MemberID n) blockeds) as [b|] eqn:Hb;
      eexists; (split; [apply mergeUserData_elem; eexists; exact Hl |]); simpl;
      [| done].
    apply lookupBlocked_Some in Hb as [_ ->]. done.
Qed.

(** ** The rows of the report *)

Lemma csvRecord_inj (u u' : MergedUser.t) : csvRecord u = csvRecord u' → u = u'.
Proof.
  destruct u as [id nick url blocked at' note created updated],
           u' as [id' nick' url' blocked' at'' note' created' updated'].
  unfold csvRecord. simpl. intros [= -> -> -> Hb -> -> -> ->].
  by destruct blocked, blocked'.
Qed.

(** X26. The records [writeCSV] hands to the writer: the header, then one
    record per user in the order of the list, each with the eight fields
    of the header. The fourth field of a user's record is [Yes] or [No],
    so no user's record can be taken for the header, and two users with
    the same record are the same user: the report loses nothing. For the
    users [mergeUserData] returns, the first fields of the records are
    pairwise different. When the file can be written, it holds the
    encoding of these records, and no other file and no directory has
    changed. *)
Theorem X26_writeCSV_records `{Tables} (fs : FS) (p : path) (users : list MergedUser.t) :
  let records := csvRecords users in
  head records = Some csvHeader
  ∧ tail records = csvRecord <$> users
  ∧ Forall (λ record, length record = length csvHeader) records
  ∧ (∀ u, u ∈ users →
       csvRecord u ≠ csvHeader
       ∧ csvRecord u !! 3%nat = Some (if MergedUser.Blocked u then "Yes" else "No"))
  ∧ (∀ u u', csvRecord u = csvRecord u' → u = u')
  ∧ (∀ blockeds privateNotes,
       NoDup ((λ record, record !!! 0%nat)
                <$> (csvRecord <$> mergeUserData blockeds privateNotes)))
  ∧ match writeCSV fs p users with
    | Ok fs' => files fs' !! p = Some (csvEncode records)
                ∧ dirs fs' = dirs fs
                ∧ ∀ q, q ≠ p → files fs' !! q = files fs !! q
    | Err _ => True
    end.
Proof.
  intros records. subst records. unfold csvRecords.
  split; [done |]. split; [done |]. split.
  { constructor; [done |]. apply Forall_fmap, Forall_forall. by intros u _. }
  split.
  { intros u _. split; [| done]. unfold csvRecord, csvHeader.
    intros [= _ _ _ Hb _]. by destruct (MergedUser.Blocked u). }
  split; [apply csvRecord_inj |]. split.
  { intros blockeds privateNotes. rewrite <- list_fmap_compose.
    pose proof (mergeUserData_ids blockeds privateNotes) as Hids.
    assert (NoDup (MergedUser.UserID <$> mergeUserData blockeds privateNotes)) as Hnd.
    { rewrite Hids. apply NoDup_fst_map_to_list. }
    erewrite list_fmap_ext; [exact Hnd |]. by intros i u _. }
  unfold writeCSV. destruct (WriteFile _ _ _) as [fs'|e] eqn:Hw; [| done].
  apply WriteFile_footprint in Hw as (Hd & Hf & Ho). by repeat split.
Qed.
